(** * Memo conversation demos: the log writer and the ask primitives

    A shallow embedding of [src/memo/memo_llm.py] (class [MemoLLM]) and
    [src/memo/memo_demo.py] (class [ConversationDemo]).

    - The background log writer of [MemoLLM] is a two-thread program: the
      driver thread calls [start_logging], [log_utterance], [stop_logging];
      the worker runs [log_writer].  It is modelled as an interleaving
      semantics: each thread is cut into atomic actions, and a step of the
      system is one action of one thread.
    - The conversation primitives ([say], [ask_yesno], [ask_entity],
      [ask_open], [listen], [play_audio]) and the two [run] methods are
      sequential code over external services.  They are modelled in a
      state-and-exception monad over a [world] that records every request
      sent to a device or service, in order, and holds the replies the
      services are going to give.

    Outside the model: the constructors (which only connect the services),
    the [on_dialog] callbacks (they print partial transcripts when the
    recognizer calls them), failures of the speech output (an [espeak]
    that cannot be run, a text-to-speech request that raises), and
    failures of the operating system (a file that cannot be opened, a
    directory that cannot be made).  A file is known by its path as
    [pathlib] writes it; two paths that the operating system resolves to
    one file (through [..] or a link) are two files here. *)

From Stdlib Require Import Ascii String DecimalString.
From stdpp Require Import gmap strings list relations.

Local Open Scope string_scope.
Local Open Scope list_scope.

(** ** Python strings *)

(** The line terminator ['\n']. *)
Definition nl : string := String "010"%char EmptyString.

(** [needle in hay] on Python strings: [needle] occurs as a contiguous
    substring of [hay]. *)
Fixpoint str_in (needle hay : string) : bool :=
  String.prefix needle hay ||
  match hay with
  | EmptyString => false
  | String _ hay' => str_in needle hay'
  end.

(** Truth value of a string: non-empty. *)
Definition truthy (s : string) : bool :=
  match s with EmptyString => false | String _ _ => true end.

(** [c.lower()] on one ASCII character. *)
Definition lower_ascii (c : ascii) : ascii :=
  let n := nat_of_ascii c in
  if (65 <=? n)%nat && (n <=? 90)%nat then ascii_of_nat (n + 32) else c.

(** [s.lower()]; the strings of this model are byte strings, and only the
    letters A..Z change. *)
Fixpoint lower (s : string) : string :=
  match s with
  | EmptyString => EmptyString
  | String c s' => String (lower_ascii c) (lower s')
  end.

(** The double quote, as a string of one character. *)
Definition dq : string := String "034"%char EmptyString.

(** Truth value of a value that is a string or [None]. *)
Definition truthy_opt (x : option string) : bool :=
  match x with Some s => truthy s | None => false end.

(** [str(n)] of an integer. *)
Definition str_of_Z (n : Z) : string := NilZero.string_of_int (Z.to_int n).

(** [s.split('\n')] without the piece after the last terminator: the lines
    of a text file whose every line is terminated. *)
Fixpoint lines_from (cur : string) (s : string) : list string :=
  match s with
  | EmptyString => match cur with EmptyString => [] | _ => [cur] end
  | String c s' =>
      if Ascii.eqb c "010"%char then cur :: lines_from EmptyString s'
      else lines_from (cur +:+ String c EmptyString) s'
  end.

Definition lines_of (s : string) : list string := lines_from EmptyString s.

(** ** Paths

    [pathlib.Path] on a POSIX system: a path is a root and a list of
    parts.  Parsing a string splits it at the slashes and drops the empty
    pieces and the pieces [.]; the root is [/] for a string that starts
    with a slash, except that exactly two leading slashes are kept as
    [//]. *)

Record pure_path := { path_root : string; path_parts : list string }.

(** [s.split('/')]. *)
Fixpoint split_from (cur : string) (s : string) : list string :=
  match s with
  | EmptyString => [cur]
  | String c s' =>
      if Ascii.eqb c "/"%char then cur :: split_from EmptyString s'
      else split_from (cur +:+ String c EmptyString) s'
  end.

Definition split_slash (s : string) : list string := split_from EmptyString s.

Fixpoint leading_slashes (s : string) : nat :=
  match s with
  | String c s' => if Ascii.eqb c "/"%char then S (leading_slashes s') else 0
  | EmptyString => 0
  end.

Definition is_part (x : string) : bool :=
  negb (String.eqb x EmptyString) && negb (String.eqb x ".").

(** [Path(s)]. *)
Definition Path (s : string) : pure_path :=
  {| path_root :=
       match leading_slashes s with
       | 0 => EmptyString
       | 2 => "//"
       | _ => "/"
       end;
     path_parts := List.filter is_part (split_slash s) |}.

(** [a / b]: an absolute [b] replaces [a]. *)
Definition truediv (a b : pure_path) : pure_path :=
  if truthy (path_root b) then b
  else {| path_root := path_root a; path_parts := path_parts a ++ path_parts b |}.

(** [str(p)], which is what [open(p, ...)] opens. *)
Definition fspath (p : pure_path) : string :=
  match path_root p, path_parts p with
  | EmptyString, [] => "."
  | r, l => r +:+ String.concat "/" l
  end.

(** A file name: a string without a slash and without the character NUL. *)
Fixpoint file_name (s : string) : bool :=
  match s with
  | EmptyString => true
  | String c s' =>
      negb (Ascii.eqb c "/"%char) && negb (Ascii.eqb c "000"%char) && file_name s'
  end.

(** ** The clock *)

(** What [time.localtime()] returns, as far as [strftime] below reads it.
    The fields are calendar values: a year of four digits, month 1..12,
    day 1..31, hour 0..23, minute and second 0..59 (61). *)
Record struct_time := {
  tm_year : nat; tm_mon : nat; tm_mday : nat;
  tm_hour : nat; tm_min : nat; tm_sec : nat }.

Definition digit (n : nat) : ascii := ascii_of_nat (48 + n mod 10).

Definition pad2 (n : nat) : string :=
  String (digit (n / 10)) (String (digit n) EmptyString).

Definition pad4 (n : nat) : string :=
  String (digit (n / 1000)) (String (digit (n / 100)) (pad2 n)).

(** [strftime("%Y-%m-%d %H:%M:%S")] at clock reading [t]. *)
Definition strftime (t : struct_time) : string :=
  pad4 (tm_year t) +:+ "-" +:+ pad2 (tm_mon t) +:+ "-" +:+ pad2 (tm_mday t)
  +:+ " " +:+ pad2 (tm_hour t) +:+ ":" +:+ pad2 (tm_min t) +:+ ":" +:+ pad2 (tm_sec t).

Definition is_digit (c : ascii) : bool :=
  let n := nat_of_ascii c in (48 <=? n)%nat && (n <=? 57)%nat.

(** The shape [YYYY-MM-DD HH:MM:SS]. *)
Definition timestamp_shape (s : string) : bool :=
  match list_ascii_of_string s with
  | [y1; y2; y3; y4; d1; m1; m2; d2; a1; a2; sp; h1; h2; c1; n1; n2; c2; s1; s2] =>
      forallb is_digit [y1; y2; y3; y4; m1; m2; a1; a2; h1; h2; n1; n2; s1; s2]
      && Ascii.eqb d1 "-"%char && Ascii.eqb d2 "-"%char && Ascii.eqb sp " "%char
      && Ascii.eqb c1 ":"%char && Ascii.eqb c2 ":"%char
  | _ => false
  end.

(** ** Exceptions *)

Inductive exn :=
| TypeError (msg : string)
| ValueError (msg : string)
| AttributeError (msg : string)
| KeyboardInterrupt
| ServiceError (msg : string)
| WaveError (msg : string).      (* [wave.Error] *)

(** ** The runtime of the logging threads

    Objects the two threads share: the [queue.Queue] objects (a heap of
    FIFO lists, addressed by position), the threads created so far, and
    the file system.  A queued value is a line of text or [None], the exit
    signal. *)

Definition item := option string.

(** Control state of one thread running [log_writer(log_path)].  [buf] is
    the text written to the file object and not flushed yet. *)
Inductive writer :=
| WOpening (log_path : string)                 (* before [open(log_path, 'a')] *)
| WWaiting (log_path buf : string)             (* top of [while True] *)
| WGetting (log_path buf : string) (q : nat)   (* inside [q.get()] *)
| WHolding (log_path buf : string) (x : item)  (* [item] is bound *)
| WWritten (log_path buf : string)             (* after [f.write], before [f.flush] *)
| WExited                                      (* file closed, thread finished *)
| WFailed (e : exn).                           (* thread died with an exception *)

Record logger := {
  log_queue : option nat;        (* [self.log_queue]: [None] or a queue *)
  log_thread : option nat;       (* [self.log_thread]: [None] or a thread *)
  queues : list (list item);
  threads : list writer;
  dirs : gset string;
  files : gmap string string }.  (* what is on disk, by path *)

Definition set_log_queue (v : option nat) (s : logger) : logger :=
  {| log_queue := v; log_thread := log_thread s; queues := queues s;
     threads := threads s; dirs := dirs s; files := files s |}.
Definition set_log_thread (v : option nat) (s : logger) : logger :=
  {| log_queue := log_queue s; log_thread := v; queues := queues s;
     threads := threads s; dirs := dirs s; files := files s |}.
Definition set_queues (v : list (list item)) (s : logger) : logger :=
  {| log_queue := log_queue s; log_thread := log_thread s; queues := v;
     threads := threads s; dirs := dirs s; files := files s |}.
Definition set_threads (v : list writer) (s : logger) : logger :=
  {| log_queue := log_queue s; log_thread := log_thread s; queues := queues s;
     threads := v; dirs := dirs s; files := files s |}.
Definition set_dirs (v : gset string) (s : logger) : logger :=
  {| log_queue := log_queue s; log_thread := log_thread s; queues := queues s;
     threads := threads s; dirs := v; files := files s |}.
Definition set_files (v : gmap string string) (s : logger) : logger :=
  {| log_queue := log_queue s; log_thread := log_thread s; queues := queues s;
     threads := threads s; dirs := dirs s; files := v |}.

(** The content of a file; a file that does not exist has none. *)
Definition file_content (fs : gmap string string) (path : string) : string :=
  default EmptyString (fs !! path).

(** [open(path, 'a')]: the file is created empty when absent and kept as
    it is otherwise. *)
Definition open_append (path : string) (fs : gmap string string) : gmap string string :=
  match fs !! path with
  | Some _ => fs
  | None => <[path := EmptyString]> fs
  end.

(** Flushing [data] to a file opened for appending. *)
Definition append_file (path data : string) (fs : gmap string string) : gmap string string :=
  <[path := file_content fs path +:+ data]> fs.

Definition finished (w : writer) : bool :=
  match w with WExited | WFailed _ => true | _ => false end.

(** The atomic actions of the driver thread on the logging state. *)
Inductive op :=
| Mkdir (d : string)            (* [Path(d).mkdir(parents=True, exist_ok=True)] *)
| NewQueue                      (* [self.log_queue = queue.Queue()] *)
| StartThread (log_path : string)
    (* [self.log_thread = Thread(target=self.log_writer, args=(log_path,), daemon=True)]
       and [self.log_thread.start()] *)
| Put (x : item)                (* [self.log_queue.put(x)] *)
| Join                          (* [self.log_thread.join()] *)
| IfQueue (o : op)              (* [if self.log_queue: o] *)
| IfThread (o : op).            (* [if self.log_thread: o] *)

(** Outcome of trying an action now. *)
Inductive attempt (A : Type) :=
| Done (a : A)
| Blocked
| Failed (e : exn).
Arguments Done {A} a.
Arguments Blocked {A}.
Arguments Failed {A} e.

Definition none_has_no (attr : string) : exn :=
  AttributeError ("'NoneType' object has no attribute '" +:+ attr +:+ "'").

Fixpoint exec_op (o : op) (s : logger) : attempt logger :=
  match o with
  | Mkdir d => Done (set_dirs ({[ d ]} ∪ dirs s) s)
  | NewQueue =>
      Done (set_log_queue (Some (length (queues s))) (set_queues (queues s ++ [[]]) s))
  | StartThread log_path =>
      Done (set_log_thread (Some (length (threads s)))
              (set_threads (threads s ++ [WOpening log_path]) s))
  | Put x =>
      match log_queue s with
      | None => Failed (none_has_no "put")
      | Some q =>
          match queues s !! q with
          | Some content => Done (set_queues (<[q := content ++ [x]]> (queues s)) s)
          | None => Blocked   (* no such queue: [NewQueue] gives valid addresses only *)
          end
      end
  | Join =>
      match log_thread s with
      | None => Failed (none_has_no "join")
      | Some i =>
          match threads s !! i with
          | Some w => if finished w then Done s else Blocked
          | None => Blocked
          end
      end
  | IfQueue o' =>
      (* a [queue.Queue] defines neither [__bool__] nor [__len__]: it is
         true even when empty, so the test is [is not None] *)
      match log_queue s with
      | Some _ => exec_op o' s
      | None => Done s
      end
  | IfThread o' =>
      match log_thread s with
      | Some _ => exec_op o' s
      | None => Done s
      end
  end.

(** How far the system is from rest, thread by thread and action by
    action: every action of either thread lowers the total (see
    [step_effort]). *)
Definition phase (w : writer) : nat :=
  match w with
  | WOpening _ => 3
  | WWaiting _ _ => 2
  | WGetting _ _ _ => 1
  | WHolding _ _ _ => 4
  | WWritten _ _ => 3
  | WExited | WFailed _ => 0
  end.

Fixpoint weight (o : op) : nat :=
  match o with
  | Mkdir _ | NewQueue | Join => 1
  | StartThread _ => 4
  | Put _ => 5
  | IfQueue o' | IfThread o' => weight o'
  end.

Definition sum_with {A} (f : A -> nat) (l : list A) : nat :=
  foldr (fun x acc => f x + acc) 0 l.

Definition load (s : logger) : nat :=
  4 * sum_with (@length item) (queues s) + sum_with phase (threads s).

(** ** The services and devices of the sequential code *)

(** What a recognition request returns ([QueryResult] of the Dialogflow
    service): the intent's display name or [None], the transcript
    ([response.query_result.query_text]) and the extracted parameters
    ([response.query_result.parameters]). *)
Record reply := {
  intent : option string;
  query_text : string;
  parameters : option (gmap string string) }.

(** Everything the program sends out, in order. *)
Inductive event :=
| TtsRequest (text : string) (language : option string) (animated : bool)
| Espeak (args : list string)
| Printed (line : string)
| IntentRequest (request_id : Z) (contexts : list (string * Z))
| GptRequest (prompt : string)
| SpeakerRequest (waveform : string) (framerate : Z).

Record world := {
  trace : list event;
  recognizer : nat -> exn + reply;   (* the reply to the k-th recognition request *)
  asked : nat;                       (* recognition requests sent so far *)
  completer : nat -> exn + string;   (* the reply to the k-th completion request *)
  completed : nat;
  clock : nat -> struct_time;        (* the k-th reading of the clock *)
  ticks : nat;
  logging : logger }.

Definition emit (e : event) (w : world) : world :=
  {| trace := trace w ++ [e]; recognizer := recognizer w; asked := asked w;
     completer := completer w; completed := completed w;
     clock := clock w; ticks := ticks w; logging := logging w |}.
Definition next_reply (w : world) : world :=
  {| trace := trace w; recognizer := recognizer w; asked := S (asked w);
     completer := completer w; completed := completed w;
     clock := clock w; ticks := ticks w; logging := logging w |}.
Definition next_completion (w : world) : world :=
  {| trace := trace w; recognizer := recognizer w; asked := asked w;
     completer := completer w; completed := S (completed w);
     clock := clock w; ticks := ticks w; logging := logging w |}.
Definition next_tick (w : world) : world :=
  {| trace := trace w; recognizer := recognizer w; asked := asked w;
     completer := completer w; completed := completed w;
     clock := clock w; ticks := S (ticks w); logging := logging w |}.
Definition set_logging (s : logger) (w : world) : world :=
  {| trace := trace w; recognizer := recognizer w; asked := asked w;
     completer := completer w; completed := completed w;
     clock := clock w; ticks := ticks w; logging := s |}.

Definition is_intent_request (e : event) : bool :=
  match e with IntentRequest _ _ => true | _ => false end.

(** The recognition requests in a trace. *)
Definition intent_requests (tr : list event) : list event :=
  filter (fun e => is_intent_request e = true) tr.

(** ** The monad of the sequential code: state and exceptions *)

Inductive outcome (A : Type) :=
| Return (a : A)
| Raise (e : exn)
| OutOfFuel.
Arguments Return {A} a.
Arguments Raise {A} e.
Arguments OutOfFuel {A}.

Definition M (A : Type) : Type := world -> outcome A * world.

Definition ret {A} (a : A) : M A := fun w => (Return a, w).
Definition raise {A} (e : exn) : M A := fun w => (Raise e, w).
Definition out_of_fuel {A} : M A := fun w => (OutOfFuel, w).

Definition bind {A B} (c : M A) (k : A -> M B) : M B :=
  fun w =>
    match c w with
    | (Return a, w') => k a w'
    | (Raise e, w') => (Raise e, w')
    | (OutOfFuel, w') => (OutOfFuel, w')
    end.

Declare Scope py_scope.
Delimit Scope py_scope with py.
Notation "x <- c ;; k" := (bind c (fun x => k))
  (at level 100, c at next level, right associativity) : py_scope.
Notation "c ;; k" := (bind c (fun _ => k))
  (at level 100, right associativity) : py_scope.
Local Open Scope py_scope.

(** [try: body  except KeyboardInterrupt: handler]. *)
Definition try_except_KeyboardInterrupt {A} (body handler : M A) : M A :=
  fun w =>
    match body w with
    | (Raise KeyboardInterrupt, w') => handler w'
    | r => r
    end.

Definition send (e : event) : M unit := fun w => (Return tt, emit e w).

(** [print(line)]. *)
Definition print (line : string) : M unit := send (Printed line).

(** [self.dialogflow.request(GetIntentRequest(request_id, contexts))]: the
    request goes out and the call blocks until the service replies. *)
Definition dialogflow_request (request_id : Z) (contexts : list (string * Z)) : M reply :=
  fun w =>
    let w' := next_reply (emit (IntentRequest request_id contexts) w) in
    match recognizer w (asked w) with
    | inr r => (Return r, w')
    | inl e => (Raise e, w')
    end.

(** [self.gpt.request(GPTRequest(prompt)).response]. *)
Definition gpt_request (prompt : string) : M string :=
  fun w =>
    let w' := next_completion (emit (GptRequest prompt) w) in
    match completer w (completed w) with
    | inr r => (Return r, w')
    | inl e => (Raise e, w')
    end.

(** A reading of the clock. *)
Definition localtime : M struct_time :=
  fun w => (Return (clock w (ticks w)), next_tick w).

(** [str(x)] of a value that is a string or [None]. *)
Definition str_of_opt (x : option string) : string :=
  match x with Some s => s | None => "None" end.

(** The retry loop shared by the ask primitives:
<<
    attempts = 0
    while attempts < max_attempts:
        body            # may [return v]
        attempts += 1
    return None
>>
    [body] answers [Some v] when it returns [v] from the function and
    [None] when control reaches [attempts += 1]. *)
Fixpoint while_attempts {A} (fuel : nat) (body : M (option A))
    (attempts max_attempts : Z) : M (option A) :=
  if (attempts <? max_attempts)%Z then
    match fuel with
    | O => out_of_fuel
    | S fuel' =>
        r <- body ;;
        match r with
        | Some v => ret (Some v)
        | None => while_attempts fuel' body (attempts + 1)%Z max_attempts
        end
    end
  else ret None.

Module MemoLLM.

(** [MemoLLM.start_logging(log_id)], the clock reading [now] at its
    [strftime] call.  The log's path is [Path("logs") / f"{log_id}.log"]. *)
Definition log_path_of (log_id : string) : string :=
  fspath (truediv (Path "logs") (Path (log_id +:+ ".log"))).

Definition start_marker (now : struct_time) : string :=
  "[" +:+ strftime now +:+ "] ### START NEW LOG ###".

Definition start_logging (log_id : string) (now : struct_time) : list op :=
  [ Mkdir "logs";
    NewQueue;
    StartThread (log_path_of log_id);
    Put (Some (start_marker now)) ].

(** [MemoLLM.stop_logging()]. *)
Definition stop_logging : list op :=
  [ IfQueue (Put None);
    IfThread Join ].

Definition format_utterance (now : struct_time) (speaker text : string) : string :=
  "[" +:+ strftime now +:+ "] " +:+ speaker +:+ ": " +:+ text.

(** [MemoLLM.log_utterance(speaker, text)]. *)
Definition log_utterance (speaker text : string) (now : struct_time) : list op :=
  [ IfQueue (Put (Some (format_utterance now speaker text))) ].

(** [MemoLLM.log_writer(log_path)]: one atomic action of thread [i], or
    [None] when the thread cannot move (it waits in [get] on an empty
    queue, or it has finished). *)
Definition log_writer (i : nat) (s : logger) : option logger :=
  match threads s !! i with
  | Some (WOpening p) =>
      (* with open(log_path, 'a', encoding='utf-8') as f: *)
      Some (set_threads (<[i := WWaiting p EmptyString]> (threads s))
              (set_files (open_append p (files s)) s))
  | Some (WWaiting p buf) =>
      (* evaluate [self.log_queue] and enter its [get] *)
      match log_queue s with
      | Some q => Some (set_threads (<[i := WGetting p buf q]> (threads s)) s)
      | None => Some (set_threads (<[i := WFailed (none_has_no "get")]> (threads s)) s)
      end
  | Some (WGetting p buf q) =>
      (* item = self.log_queue.get() *)
      match queues s !! q with
      | Some (x :: rest) =>
          Some (set_threads (<[i := WHolding p buf x]> (threads s))
                  (set_queues (<[q := rest]> (queues s)) s))
      | _ => None
      end
  | Some (WHolding p buf None) =>
      (* if item is None: break; leaving [with] flushes and closes *)
      Some (set_threads (<[i := WExited]> (threads s))
              (set_files (append_file p buf (files s)) s))
  | Some (WHolding p buf (Some line)) =>
      (* f.write(item + '\n') *)
      Some (set_threads (<[i := WWritten p (buf +:+ (line +:+ nl))]> (threads s)) s)
  | Some (WWritten p buf) =>
      (* f.flush() *)
      Some (set_threads (<[i := WWaiting p EmptyString]> (threads s))
              (set_files (append_file p buf (files s)) s))
  | Some WExited | Some (WFailed _) | None => None
  end.

(** *** The sequential methods *)

(** The fields of a [MemoLLM] object the methods read. *)
Record self := { request_id : Z }.

(** The driver's actions run from sequential code.  An action that has
    to wait (a [join]) lets the thread it waits for run. *)
Fixpoint run_thread (fuel : nat) (i : nat) (s : logger) : logger :=
  match fuel with
  | O => s
  | S fuel' =>
      match log_writer i s with
      | Some s' => run_thread fuel' i s'
      | None => s
      end
  end.

Definition do_op (o : op) : M unit :=
  fun w =>
    match exec_op o (logging w) with
    | Done s' => (Return tt, set_logging s' w)
    | Failed e => (Raise e, w)
    | Blocked =>
        let s' :=
          match log_thread (logging w) with
          | Some i => run_thread (load (logging w)) i (logging w)
          | None => logging w
          end in
        match exec_op o s' with
        | Done s'' => (Return tt, set_logging s'' w)
        | Failed e => (Raise e, set_logging s' w)
        | Blocked => (OutOfFuel, set_logging s' w)
        end
    end.

Fixpoint do_ops (ops : list op) : M unit :=
  match ops with
  | [] => ret tt
  | o :: rest => do_op o ;; do_ops rest
  end.

(** A call of [self.start_logging] with the positional arguments [args]:
    the method has one required positional parameter, [log_id]. *)
Definition call_start_logging (args : list string) : M unit :=
  match args with
  | [log_id] => now <- localtime ;; do_ops (start_logging log_id now)
  | [] =>
      raise (TypeError
        "MemoLLM.start_logging() missing 1 required positional argument: 'log_id'")
  | _ :: _ :: _ =>
      raise (TypeError
        ("MemoLLM.start_logging() takes 2 positional arguments but "
         +:+ str_of_Z (Z.of_nat (S (length args))) +:+ " were given"))
  end.

Definition call_stop_logging : M unit := do_ops stop_logging.

(** A call [self.log_utterance(speaker, text)]; the clock is read only
    when a queue is there. *)
Definition call_log_utterance (speaker text : string) : M unit :=
  fun w =>
    match log_queue (logging w) with
    | Some _ => (now <- localtime ;; do_ops (log_utterance speaker text now)) w
    | None => (Return tt, w)
    end.

(** [MemoLLM.say(text, speed)]. *)
Definition say (text : string) (speed : Z) : M unit :=
  send (TtsRequest (" \rspd=" +:+ str_of_Z speed +:+ "\ " +:+ text) (Some "Dutch") true).

(** [MemoLLM.listen(question, speed, max_attempts)]. *)
Definition listen_attempt (me : self) (question : string) (speed : Z) : M (option string) :=
  say question speed ;;
  reply <- dialogflow_request (request_id me) [] ;;
  if truthy (query_text reply) then ret (Some (query_text reply)) else ret None.

Definition listen (me : self) (question : string) (speed : Z) (max_attempts : Z)
  : M (option string) :=
  while_attempts (Z.to_nat max_attempts) (listen_attempt me question speed) 0 max_attempts.

Definition base_prompt : string :=
  "We willen graag dat je een rol speelt. Je bent Memo. Memo is een zorgrobot die graag praatjes maakt met mensen."
  +:+ "Je bent heel geïnteresseerd in je gesprekspartner. Je hebt al 5 jaar gewerkt in huizen waar ouderen wonen."
  +:+ "Je mag niet naar het bos en ook niet naar het strand, want dan komt er zand in je wieltjes."
  +:+ "Je vertelt graag gedichten."
  +:+ "Het gesprek vindt plaats in de woonkamer van een huis waar oudere mensen wonen."
  +:+ "Er zijn ongeveer een stuk of 10 mensen. Zij drinken koffie."
  +:+ "Jij drinkt geen koffie, want jij haalt jouw energie uit het stopcontact."
  +:+ "Je bent nieuwsgierig naar de verhalen die jouw gesprekspartners aan jou willen vertellen."
  +:+ "Dat is het doel van het gesprek."
  +:+ "Je hebt zelf ook een doel. Af en toe vraag je of jij een gedichtje mag voordragen."
  +:+ "Als het antwoord ‘ja’ is, dan maak je een gedichtje van 2 strofen,"
  +:+ "in een AABB CCBB rijmschema, op basis van de input die je tot dan toe hebt ontvangen."
  +:+ "Als je antwoord geeft, dan doe je dat in korte zinnen. Maximaal 2 zinnen per keer."
  +:+ "Je gebruikt simpele taal. Niet moeilijker dan A1 niveau."
  +:+ "Je mag herhalen wat je hebt gehoord."
  +:+ "Na een vraag kan je een vervolgvraag stellen, of over iets soortgelijks een vraag stellen."
  +:+ "Alles wat in de conversatie gezegd is, onthoud je voor een latere vraag of een gedichtje."
  +:+ "Stuur alleen jouw tekst terug zonder de 'Memo: prefix'"
  +:+ "Als je denkt dat de persoon wil stoppen met het gesprek kun je dit vragen."
  +:+ "Is dat het geval of er wordt duidelijk proactief al gecommuniceerd dat de persoon wil of "
  +:+ "moet stoppen met het gesprek, dan stuur je enkel het woord 'stop' terug."
  +:+ "Vergeet ook je gedichtjes af en toe niet.".

(** [MemoLLM.llm_action(dialog_history)]. *)
Definition llm_action (dialog_history : string) : M string :=
  let complete_prompt :=
    if truthy dialog_history
    then base_prompt +:+ ("Dit is het gesprek tot nu toe: " +:+ dialog_history)
    else base_prompt in
  gpt_request complete_prompt.

Definition closing : string :=
  "Oke dat was het weer, bedankt voor dit fijne gesprek. Tot ziens!".

(** The [while llm_response.lower() != 'stop'] loop of [run]; the loop
    has no bound of its own, so the model carries [fuel]. *)
Fixpoint conversation (fuel : nat) (me : self) (speed : Z)
    (dialog_history llm_response : string) : M unit :=
  if String.eqb (lower llm_response) "stop" then ret tt
  else
    match fuel with
    | O => out_of_fuel
    | S fuel' =>
        llm_response <- llm_action dialog_history ;;
        print ("Memo: " +:+ llm_response) ;;
        if String.eqb (lower llm_response) "stop"
        then conversation fuel' me speed dialog_history llm_response
        else
          let dialog_history := dialog_history +:+ ("Memo: " +:+ llm_response +:+ nl) in
          call_log_utterance "Memo" llm_response ;;
          user_response <- listen me llm_response speed 2 ;;
          let dialog_history :=
            dialog_history +:+ ("Persoon: " +:+ str_of_opt user_response) in
          call_log_utterance "Persoon" (str_of_opt user_response) ;;
          conversation fuel' me speed dialog_history llm_response
    end.

(** The body of [run]'s [try], from a given list of arguments to its
    [start_logging] call on. *)
Definition run_from (start_args : list string) (fuel : nat) (me : self) (speed : Z)
  : M unit :=
  call_start_logging start_args ;;
  conversation fuel me speed EmptyString EmptyString ;;
  say closing speed ;;
  call_stop_logging.

(** [MemoLLM.run(speed)]: the source calls [self.start_logging()] with
    no argument. *)
Definition run (fuel : nat) (me : self) (speed : Z) : M unit :=
  try_except_KeyboardInterrupt
    (run_from [] fuel me speed)
    (say closing speed ;; call_stop_logging).

End MemoLLM.

(** ** The two threads together *)

(** The driver thread: the actions it still has to do, and the exception
    that ended it, if any. *)
Record config := {
  pending : list op;
  raised : option exn;
  obj : logger }.

Definition driver_step (c : config) : option config :=
  match pending c with
  | [] => None
  | o :: rest =>
      match exec_op o (obj c) with
      | Done s' => Some {| pending := rest; raised := raised c; obj := s' |}
      | Blocked => None
      | Failed e => Some {| pending := []; raised := Some e; obj := obj c |}
      end
  end.

Definition writer_step (i : nat) (c : config) : option config :=
  match MemoLLM.log_writer i (obj c) with
  | Some s' => Some {| pending := pending c; raised := raised c; obj := s' |}
  | None => None
  end.

(** One step of the system: an action of the driver or of one worker. *)
Inductive step : config -> config -> Prop :=
| step_driver c c' : driver_step c = Some c' -> step c c'
| step_writer i c c' : writer_step i c = Some c' -> step c c'.

(** A schedule says which thread moves next. *)
Inductive tid := Driver | Worker (i : nat).

Definition sched_step (t : tid) (c : config) : option config :=
  match t with
  | Driver => driver_step c
  | Worker i => writer_step i c
  end.

Fixpoint run_schedule (sched : list tid) (c : config) : option config :=
  match sched with
  | [] => Some c
  | t :: sched' =>
      match sched_step t c with
      | Some c' => run_schedule sched' c'
      | None => None
      end
  end.

(** The object as [__init__] leaves it, on a disk holding [fs]. *)
Definition fresh (fs : gmap string string) : logger :=
  {| log_queue := None; log_thread := None; queues := []; threads := [];
     dirs := ∅; files := fs |}.

Definition boot (prog : list op) (fs : gmap string string) : config :=
  {| pending := prog; raised := None; obj := fresh fs |}.

(** The driver has returned from its last call. *)
Definition returned (c : config) : Prop := pending c = [] /\ raised c = None.

(** One logging session: [start_logging], some utterances, [stop_logging]. *)
Definition utterance := (string * string * struct_time)%type.

Definition utterance_ops (u : utterance) : list op :=
  let '(speaker, text, now) := u in MemoLLM.log_utterance speaker text now.

Definition utterance_line (u : utterance) : string :=
  let '(speaker, text, now) := u in MemoLLM.format_utterance now speaker text.

Definition session (log_id : string) (t0 : struct_time) (us : list utterance) : list op :=
  MemoLLM.start_logging log_id t0 ++ concat (map utterance_ops us) ++ MemoLLM.stop_logging.

(** The records a session submits, in submission order. *)
Definition session_records (t0 : struct_time) (us : list utterance) : list string :=
  MemoLLM.start_marker t0 :: map utterance_line us.

(** The text of a list of records, each followed by the terminator. *)
Fixpoint text_of (records : list string) : string :=
  match records with
  | [] => EmptyString
  | r :: rest => (r +:+ nl) +:+ text_of rest
  end.


(** ** [ConversationDemo] *)

Module ConversationDemo.

Inductive device_kind := Desktop | Pepper | Nao | OtherDevice.

(** The fields of a [ConversationDemo] object the methods read. *)
Record self := {
  device : device_kind;
  device_repr : string;     (* [str(self.device)] *)
  other_speaker : exn + unit;
    (* [self.device.speaker] on a device of another class: the connector,
       or the exception the lookup raises *)
  lang : string;
  request_id : Z }.

(** [ConversationDemo.say(text, animated)].  The second test of the
    [elif] is [isinstance(device, Nao)], on the imported module
    [device], which is no [Nao]: only a Pepper takes that branch. *)
Definition say (me : self) (text : string) (animated : bool) : M unit :=
  match device me with
  | Desktop => send (Espeak ["espeak"; "-s140"; "-v" +:+ lang me; "-z"; text])
  | Pepper => send (TtsRequest text None animated)
  | Nao | OtherDevice =>
      print ("Error: device " +:+ device_repr me +:+ " not recognized")
  end.

(** An opened WAV file (what [wave.open(audio_file, 'rb')] returns):
    sample width in bytes, frame rate, and the frames. *)
Record wave_read := {
  sampwidth : Z;
  framerate : Z;
  frames : list string }.

Definition getnframes (wf : wave_read) : nat := length (frames wf).

Definition readframes (wf : wave_read) (n : nat) : string :=
  foldr String.append EmptyString (take n (frames wf)).

(** [self.device.speaker]: the robots ([Pepper], [Nao]) have a speaker
    connector of that name; a [Desktop] has [speakers] instead, so the
    lookup raises. *)
Definition speaker (me : self) : exn + unit :=
  match device me with
  | Pepper | Nao => inr tt
  | Desktop => inl (AttributeError "'Desktop' object has no attribute 'speaker'")
  | OtherDevice => other_speaker me
  end.

(** [ConversationDemo.play_audio(audio_file)].  [opened] is what
    [wave.open(audio_file, 'rb')] does with the file: it raises (no such
    file, no WAV file, no PCM data) or it gives the reader.  In the last
    statement the callee [self.device.speaker.request] is evaluated
    before its argument. *)
Definition play_audio (me : self) (opened : exn + wave_read) : M unit :=
  match opened with
  | inl e => raise e
  | inr wf =>
      let sample_width := sampwidth wf in
      let n_frames := getnframes wf in
      if negb (sample_width =? 2)%Z then
        raise (ValueError ("WAV file is not 16-bit audio. Sample width = "
                           +:+ str_of_Z sample_width +:+ " bytes."))
      else
        match speaker me with
        | inl e => raise e
        | inr _ => send (SpeakerRequest (readframes wf n_frames) (framerate wf))
        end
  end.

(** A RIFF/WAVE file with one format chunk and one data chunk, as
    [wave.open] reads it: the format (tag 1 for PCM, 3 for IEEE float,
    6 for A-law, 7 for mu-law), the number of channels, the frame rate,
    the bits per sample and the frames of the data chunk. *)
Inductive wav_format := Pcm | IeeeFloat | Alaw | Mulaw.

Definition format_tag (f : wav_format) : Z :=
  match f with Pcm => 1 | IeeeFloat => 3 | Alaw => 6 | Mulaw => 7 end.

Record wav_file := {
  format : wav_format;
  nchannels : Z;
  sample_rate : Z;
  bits_per_sample : Z;
  data : list string }.

(** The sample width of the file, in bytes. *)
Definition sample_width_of (f : wav_file) : Z := (bits_per_sample f + 7) / 8.

(** [wave.open(audio_file, 'rb')] on such a file: the module reads PCM
    data only. *)
Definition wave_open (f : wav_file) : exn + wave_read :=
  match format f with
  | Pcm =>
      if (sample_width_of f =? 0)%Z then inl (WaveError "bad sample width")
      else if (nchannels f =? 0)%Z then inl (WaveError "bad # of channels")
      else inr {| sampwidth := sample_width_of f; framerate := sample_rate f;
                  frames := data f |}
  | _ => inl (WaveError ("unknown format: " +:+ str_of_Z (format_tag (format f))))
  end.

(** The answer one reply gives [ask_yesno], [None] when the attempt is
    a miss. *)
Definition yesno_of (r : reply) : option string :=
  match intent r with
  | Some name =>
      if truthy name then
        if str_in "yesno_yes" name then Some "yes"
        else if str_in "yesno_no" name then Some "no"
        else if str_in "yesno_dontknow" name then Some "dontknow"
        else None
      else None
  | None => None
  end.

Definition ask_yesno_attempt (me : self) (question : string) : M (option string) :=
  say me question true ;;
  reply <- dialogflow_request (request_id me) [("answer_yesno", 1%Z)] ;;
  print ("The detected intent: " +:+ str_of_opt (intent reply)) ;;
  ret (yesno_of reply).

(** [ConversationDemo.ask_yesno(question, max_attempts)]. *)
Definition ask_yesno (me : self) (question : string) (max_attempts : Z)
  : M (option string) :=
  while_attempts (Z.to_nat max_attempts) (ask_yesno_attempt me question) 0 max_attempts.

(** The value one reply gives [ask_entity]. *)
Definition entity_of (target_intent target_entity : string) (r : reply) : option string :=
  match intent r with
  | Some name =>
      if truthy name && str_in target_intent name then
        match parameters r with
        | Some params => params !! target_entity
        | None => None
        end
      else None
  | None => None
  end.

Definition ask_entity_attempt (me : self) (question context target_intent target_entity : string)
  : M (option string) :=
  say me question true ;;
  reply <- dialogflow_request (request_id me) [(context, 1%Z)] ;;
  print ("The detected intent: " +:+ str_of_opt (intent reply)) ;;
  ret (entity_of target_intent target_entity reply).

(** [ConversationDemo.ask_entity(question, context, target_intent,
    target_entity, max_attempts)]. *)
Definition ask_entity (me : self) (question context target_intent target_entity : string)
    (max_attempts : Z) : M (option string) :=
  while_attempts (Z.to_nat max_attempts)
    (ask_entity_attempt me question context target_intent target_entity) 0 max_attempts.

Definition ask_open_attempt (me : self) (question : string) : M (option string) :=
  say me question true ;;
  reply <- dialogflow_request (request_id me) [] ;;
  print ("The detected intent: " +:+ str_of_opt (intent reply)) ;;
  if truthy (query_text reply) then ret (Some (query_text reply)) else ret None.

(** [ConversationDemo.ask_open(question, max_attempts)]. *)
Definition ask_open (me : self) (question : string) (max_attempts : Z)
  : M (option string) :=
  while_attempts (Z.to_nat max_attempts) (ask_open_attempt me question) 0 max_attempts.

(** [ConversationDemo.llm_request(prompt)]. *)
Definition llm_request (prompt : string) : M string := gpt_request prompt.

(** The prompt of the first completion request of [run]. *)
Definition followup_prompt (lievelingsdier waarom_lievelingsdier : string) : string :=
  "Je bent een robot die praat met een persoon met dementie in een verzorgingstehuis."
  +:+ "De robot heeft zo juist gevraagd naar de lievelingsdier van de persoon."
  +:+ "Het antwoord was een " +:+ lievelingsdier
  +:+ "Vervolgens vroeg de robot " +:+ dq +:+ "wat vind je daar zo leuk aan?" +:+ dq
  +:+ "Daar reageerde de persoon op met: " +:+ dq +:+ waarom_lievelingsdier +:+ dq
  +:+ "Genereer nu een gepaste reactie afsluitend met een enkele relevante vervolgvraag".

(** The prompt of the second completion request of [run]. *)
Definition reaction_prompt
    (lievelingsdier waarom_lievelingsdier vervolg_vraag waarom_lievelingsdier_2 : string)
  : string :=
  "Je bent een robot die praat met een persoon met dementie in een verzorgingstehuis."
  +:+ "De robot heeft zo juist gevraagd naar de lievelingsdier van de persoon."
  +:+ "Het antwoord was een " +:+ lievelingsdier
  +:+ "Vervolgens vroeg de robot " +:+ dq +:+ "wat vind je daar zo leuk aan?" +:+ dq
  +:+ "Daar reageerde de persoon op met: " +:+ dq +:+ waarom_lievelingsdier +:+ dq
  +:+ "Daarna stelde je deze vervolg vraag " +:+ dq +:+ vervolg_vraag +:+ dq
  +:+ "En dit was de reactie daar weer op " +:+ dq +:+ waarom_lievelingsdier_2 +:+ dq
  +:+ "Geneer nu een gepaste reactie van de robot. Deze reactie mag geen vraag bevatten.".

Definition greeting : string := "Hallo, ik ben Memo de robot.".
Definition farewell : string :=
  "Wat fijn dat we even konden praten. Ik ga nu weer even rusten.".

(** The part of [run] under [if waarom_lievelingsdier:]. *)
Definition run_followup (me : self) (lievelingsdier waarom_lievelingsdier : string) : M unit :=
  vervolg_vraag <- llm_request (followup_prompt lievelingsdier waarom_lievelingsdier) ;;
  if truthy vervolg_vraag then
    waarom_lievelingsdier_2 <- ask_open me vervolg_vraag 2 ;;
    if truthy_opt waarom_lievelingsdier_2 then
      reaction <- llm_request
        (reaction_prompt lievelingsdier waarom_lievelingsdier vervolg_vraag
           (str_of_opt waarom_lievelingsdier_2)) ;;
      say me reaction true
    else ret tt
  else
    (* In case nothing was generated *)
    say me "Wat interessant zeg." true.

(** The part of [run] under [if wil_kletsen and wil_kletsen == "yes":]. *)
Definition run_animals (me : self) : M unit :=
  lievelingsdier <- ask_entity me "Wat is jouw lievelingsdier?"
                      "animals" "animals" "animals" 2 ;;
  if truthy_opt lievelingsdier then
    say me ("Oh een " +:+ str_of_opt lievelingsdier +:+ "!") true ;;
    waarom_lievelingsdier <- ask_open me "Wat vind je daar zo leuk aan?" 2 ;;
    if truthy_opt waarom_lievelingsdier then
      run_followup me (str_of_opt lievelingsdier) (str_of_opt waarom_lievelingsdier)
    else
      (* Om case we are not sure if anything was said or not. *)
      say me "Oke." true
  else
    (* in case nothing was recognized *)
    say me "Oh dat begreep ik even niet. laten we verder gaan." true.

(** [ConversationDemo.run()]. *)
Definition run (me : self) : M unit :=
  say me greeting true ;;
  wil_kletsen <- ask_yesno me "Hou je van dieren?" 2 ;;
  (if truthy_opt wil_kletsen
      && match wil_kletsen with Some s => String.eqb s "yes" | None => false end
   then run_animals me
   else
     (* In case they did not like animals. *)
     say me "Helemaal prima, dan kletsen we over wat anders" true) ;;
  say me farewell true.

End ConversationDemo.

(** * Definitions of the specification *)

(** ** Effort and the shape of a session *)

(** How far a configuration is from rest. *)
Definition effort (c : config) : nat := sum_with weight (pending c) + load (obj c).

(** The values an action puts in the queue when a queue is there. *)
Fixpoint puts_of (o : op) : list item :=
  match o with
  | Put x => [x]
  | IfQueue o' | IfThread o' => puts_of o'
  | _ => []
  end.

Definition puts (ops : list op) : list item := concat (map puts_of ops).

Fixpoint is_put (o : op) : bool :=
  match o with
  | Put _ => true
  | IfQueue o' => is_put o'
  | _ => false
  end.

(** What is left of a session once the worker runs: puts, then the join. *)
Fixpoint awaiting (p : list op) : bool :=
  match p with
  | [] => false
  | o :: rest =>
      match rest with
      | [] => match o with IfThread Join => true | _ => false end
      | _ :: _ => is_put o && awaiting rest
      end
  end.

(** The configuration a schedule leads to ([c] itself when the schedule
    asks a thread to move that cannot). *)
Definition run_to (sched : list tid) (c : config) : config :=
  default c (run_schedule sched c).

(** *** One logging session

    The session of [log_id] started at clock reading [t0] with the
    utterances [us], on a disk that holds [fs0]. *)

Definition session_path (log_id : string) : string := MemoLLM.log_path_of log_id.

(** What the log file holds before the session. *)
Definition before (fs0 : gmap string string) (log_id : string) : string :=
  file_content fs0 (session_path log_id).

(** Everything the session puts in the queue, in order. *)
Definition session_items (t0 : struct_time) (us : list utterance) : list item :=
  map Some (session_records t0 us) ++ [None].

Definition session_boot (fs0 : gmap string string) (log_id : string) (t0 : struct_time)
    (us : list utterance) : config :=
  boot (session log_id t0 us) fs0.

(** The worker's control state agrees with [I], what it has taken from
    the queue and not flushed yet. *)
Definition writer_ok (log_id : string) (w : writer) (I : list item) : Prop :=
  match w with
  | WOpening p => p = session_path log_id /\ I = []
  | WWaiting p buf => p = session_path log_id /\ buf = EmptyString /\ I = []
  | WGetting p buf q => p = session_path log_id /\ buf = EmptyString /\ q = 0 /\ I = []
  | WHolding p buf x => p = session_path log_id /\ buf = EmptyString /\ I = [x]
  | WWritten p buf =>
      p = session_path log_id /\ exists line, buf = line +:+ nl /\ I = [Some line]
  | WExited => I = [None]
  | WFailed _ => False
  end.

(** Before the worker exists: the driver has done [k < 3] actions. *)
Definition starting (fs0 : gmap string string) (log_id : string) (t0 : struct_time)
    (us : list utterance) (c : config) : Prop :=
  exists k, k < 3 /\ run_schedule (repeat Driver k) (session_boot fs0 log_id t0 us) = Some c.

(** From the start of the worker on.  [D] are the records on disk, [I]
    what the worker has taken from the queue and not flushed yet. *)
Definition in_session (fs0 : gmap string string) (log_id : string) (t0 : struct_time)
    (us : list utterance) (c : config) : Prop :=
  exists (q : list item) (w : writer) (D : list string) (I : list item),
    raised c = None /\
    log_queue (obj c) = Some 0 /\ log_thread (obj c) = Some 0 /\
    queues (obj c) = [q] /\ threads (obj c) = [w] /\
    map Some D ++ I ++ q ++ puts (pending c) = session_items t0 us /\
    writer_ok log_id w I /\
    file_content (files (obj c)) (session_path log_id) = before fs0 log_id +:+ text_of D /\
    (forall p, p <> session_path log_id ->
       file_content (files (obj c)) p = file_content fs0 p) /\
    (awaiting (pending c) = true \/ (pending c = [] /\ w = WExited)).

(** The invariant of a session. *)
Definition session_inv (fs0 : gmap string string) (log_id : string) (t0 : struct_time)
    (us : list utterance) (c : config) : Prop :=
  starting fs0 log_id t0 us c \/ in_session fs0 log_id t0 us c.

(** ** Several sessions, and calls outside a session *)

(** A session to run: its log id, the clock reading of its start, its
    utterances. *)
Definition session_spec : Type := (string * struct_time * list utterance)%type.

Definition spec_ops (ses : session_spec) : list op :=
  session (fst (fst ses)) (snd (fst ses)) (snd ses).

Definition spec_path (ses : session_spec) : string := session_path (fst (fst ses)).

Definition spec_records (ses : session_spec) : list string :=
  session_records (snd (fst ses)) (snd ses).

(** The sessions of [L], one after the other. *)
Definition all_ops (L : list session_spec) : list op := concat (map spec_ops L).

(** The text the sessions of [L] add to the file [path], in their order. *)
Fixpoint log_text (L : list session_spec) (path : string) : string :=
  match L with
  | [] => EmptyString
  | ses :: L' =>
      (if String.eqb (spec_path ses) path then text_of (spec_records ses) else EmptyString)
      +:+ log_text L' path
  end.

(** The actions of [log_utterance] and [stop_logging]. *)
Definition late_op (o : op) : bool :=
  match o with
  | IfQueue (Put _) => true
  | IfThread Join => true
  | _ => false
  end.

(** A call of [log_utterance] or of [stop_logging]. *)
Inductive late_call :=
| CallLogUtterance (speaker text : string) (now : struct_time)
| CallStopLogging.

Definition call_ops (k : late_call) : list op :=
  match k with
  | CallLogUtterance speaker text now => MemoLLM.log_utterance speaker text now
  | CallStopLogging => MemoLLM.stop_logging
  end.

Definition calls_ops (calls : list late_call) : list op := concat (map call_ops calls).

(** The two fields name objects that exist. *)
Definition well_formed (s : logger) : Prop :=
  (forall q, log_queue s = Some q -> q < length (queues s))
  /\ (forall i, log_thread s = Some i -> i < length (threads s)).

(** No worker is alive, and the disk holds what [fs0] held and then the
    text of the sessions [L1]. *)
Definition at_rest (fs0 : gmap string string) (L1 : list session_spec) (s : logger) : Prop :=
  forallb finished (threads s) = true
  /\ well_formed s
  /\ forall path, file_content (files s) path = file_content fs0 path +:+ log_text L1 path.

(** The control state of the worker that writes [path] and reads the
    queue [qi] agrees with [I], what it has taken from the queue and not
    flushed yet. *)
Definition worker_ok (path : string) (qi : nat) (w : writer) (I : list item) : Prop :=
  match w with
  | WOpening p => p = path /\ I = []
  | WWaiting p buf => p = path /\ buf = EmptyString /\ I = []
  | WGetting p buf q => p = path /\ buf = EmptyString /\ q = qi /\ I = []
  | WHolding p buf x => p = path /\ buf = EmptyString /\ I = [x]
  | WWritten p buf => p = path /\ exists line, buf = line +:+ nl /\ I = [Some line]
  | WExited => I = [None]
  | WFailed _ => False
  end.

(** The first two actions of the session [ses] are under way. *)
Definition starting_in (fs0 : gmap string string) (L1 : list session_spec)
    (ses : session_spec) (rest : list op) (c : config) : Prop :=
  exists (s : logger) (k : nat),
    (k = 1 \/ k = 2) /\ at_rest fs0 L1 s
    /\ run_schedule (repeat Driver k)
         {| pending := spec_ops ses ++ rest; raised := None; obj := s |} = Some c.

(** The worker of the session [ses] exists and the driver is not past the
    session's join. *)
Definition in_sess (fs0 : gmap string string) (L1 : list session_spec)
    (ses : session_spec) (rest : list op) (c : config) : Prop :=
  exists (qs : list (list item)) (ths : list writer) (q : list item) (w : writer)
         (D : list string) (I : list item) (p : list op),
    raised c = None
    /\ queues (obj c) = qs ++ [q] /\ log_queue (obj c) = Some (length qs)
    /\ threads (obj c) = ths ++ [w] /\ log_thread (obj c) = Some (length ths)
    /\ forallb finished ths = true
    /\ pending c = p ++ rest /\ awaiting p = true
    /\ map Some D ++ I ++ q ++ puts p = map Some (spec_records ses) ++ [None]
    /\ worker_ok (spec_path ses) (length qs) w I
    /\ forall path,
         file_content (files (obj c)) path
         = file_content fs0 path
           +:+ (log_text L1 path
                +:+ (if String.eqb (spec_path ses) path then text_of D else EmptyString)).

(** The invariant of a program of sessions followed by late calls. *)
Definition multi_inv (fs0 : gmap string string) (L : list session_spec) (c : config) : Prop :=
  exists (L1 L2 : list session_spec) (tl : list op),
    L = L1 ++ L2 /\ forallb late_op tl = true
    /\ ((raised c = None /\ at_rest fs0 L1 (obj c) /\ pending c = all_ops L2 ++ tl)
        \/ exists ses L2', L2 = ses :: L2'
             /\ (starting_in fs0 L1 ses (all_ops L2' ++ tl) c
                 \/ in_sess fs0 L1 ses (all_ops L2' ++ tl) c)).

(** ** Lines and their shape *)

(** The string holds no line terminator. *)
Fixpoint single_line (s : string) : bool :=
  match s with
  | EmptyString => true
  | String c s' => negb (Ascii.eqb c "010"%char) && single_line s'
  end.

(** [s[n:]]. *)
Fixpoint skip (n : nat) (s : string) : string :=
  match n, s with
  | O, _ => s
  | S n', String _ s' => skip n' s'
  | S _, EmptyString => EmptyString
  end.

(** The shape [[YYYY-MM-DD HH:MM:SS] <speaker>: <text>] of a line. *)
Definition line_shape (l : string) : bool :=
  match l with
  | String c rest =>
      Ascii.eqb c "["%char
      && timestamp_shape (substring 0 19 rest)
      && String.prefix "] " (skip 19 rest)
      && str_in ": " (skip 21 rest)
  | EmptyString => false
  end.

(** The shape [[YYYY-MM-DD HH:MM:SS] ### START NEW LOG ###] of the first line. *)
Definition marker_shape (l : string) : bool :=
  match l with
  | String c rest =>
      Ascii.eqb c "["%char
      && timestamp_shape (substring 0 19 rest)
      && String.eqb (skip 19 rest) "] ### START NEW LOG ###"
  | EmptyString => false
  end.

(** The lines of the specification: [[<timestamp>] <speaker>: <text>] for
    an utterance and [[<timestamp>] ### START NEW LOG ###] for the start
    of a session. *)
Definition record_line (timestamp speaker text : string) : string :=
  "[" +:+ timestamp +:+ "] " +:+ speaker +:+ ": " +:+ text.

Definition marker_line (timestamp : string) : string :=
  "[" +:+ timestamp +:+ "] ### START NEW LOG ###".

(** The lines of a session that starts at [t0] and logs [us]: the marker,
    then one record per utterance, each with the time of its call. *)
Definition session_lines (t0 : struct_time) (us : list utterance) : list string :=
  marker_line (strftime t0)
  :: map (fun u : utterance => record_line (strftime (snd u)) (fst (fst u)) (snd (fst u))) us.

(** What the sessions of [L] with the id [log_id] log, in their order:
    for each its marker and its records. *)
Fixpoint log_of (L : list session_spec) (log_id : string) : string :=
  match L with
  | [] => EmptyString
  | ses :: L' =>
      (if String.eqb (fst (fst ses)) log_id
       then text_of (session_lines (snd (fst ses)) (snd ses))
       else EmptyString)
      +:+ log_of L' log_id
  end.

(** Every session id of [L] is a file name. *)
Definition file_names (L : list session_spec) : bool :=
  forallb (fun ses : session_spec => file_name (fst (fst ses))) L.

(** ** The ask primitives *)

(** The four primitives with the retry loop, and the arguments that tell
    them apart. *)
Inductive primitive :=
| AskYesno (me : ConversationDemo.self)
| AskEntity (me : ConversationDemo.self) (context target_intent target_entity : string)
| AskOpen (me : ConversationDemo.self)
| Listen (me : MemoLLM.self) (speed : Z).

Definition ask (p : primitive) (question : string) (max_attempts : Z) : M (option string) :=
  match p with
  | AskYesno me => ConversationDemo.ask_yesno me question max_attempts
  | AskEntity me context target_intent target_entity =>
      ConversationDemo.ask_entity me question context target_intent target_entity max_attempts
  | AskOpen me => ConversationDemo.ask_open me question max_attempts
  | Listen me speed => MemoLLM.listen me question speed max_attempts
  end.

(** One pass through the loop body. *)
Definition one_attempt (p : primitive) (question : string) : M (option string) :=
  match p with
  | AskYesno me => ConversationDemo.ask_yesno_attempt me question
  | AskEntity me context target_intent target_entity =>
      ConversationDemo.ask_entity_attempt me question context target_intent target_entity
  | AskOpen me => ConversationDemo.ask_open_attempt me question
  | Listen me speed => MemoLLM.listen_attempt me question speed
  end.

(** The recognition request a primitive sends on each attempt. *)
Definition request_of (p : primitive) : event :=
  match p with
  | AskYesno me => IntentRequest (ConversationDemo.request_id me) [("answer_yesno", 1%Z)]
  | AskEntity me context _ _ => IntentRequest (ConversationDemo.request_id me) [(context, 1%Z)]
  | AskOpen me => IntentRequest (ConversationDemo.request_id me) []
  | Listen me _ => IntentRequest (MemoLLM.request_id me) []
  end.

(** The intent name of the reply contains [tag]. *)
Definition intent_has (tag : string) (r : reply) : bool :=
  match intent r with
  | Some name => str_in tag name
  | None => false
  end.

(** The reply carries what the primitive listens for: a matching intent
    for [ask_yesno] and [ask_entity], transcript text for the open ones. *)
Definition carries_match (p : primitive) (r : reply) : bool :=
  match p with
  | AskYesno _ =>
      intent_has "yesno_yes" r || intent_has "yesno_no" r || intent_has "yesno_dontknow" r
  | AskEntity _ _ target_intent _ => intent_has target_intent r
  | AskOpen _ | Listen _ _ => truthy (query_text r)
  end.

(** What the reply makes the primitive return, [None] for a miss. *)
Definition answer_of (p : primitive) (r : reply) : option string :=
  match p with
  | AskYesno _ => ConversationDemo.yesno_of r
  | AskEntity _ _ target_intent target_entity =>
      ConversationDemo.entity_of target_intent target_entity r
  | AskOpen _ | Listen _ _ =>
      if truthy (query_text r) then Some (query_text r) else None
  end.

Definition say_event (me : ConversationDemo.self) (text : string) (animated : bool) : event :=
  match ConversationDemo.device me with
  | ConversationDemo.Desktop =>
      Espeak ["espeak"; "-s140"; "-v" +:+ ConversationDemo.lang me; "-z"; text]
  | ConversationDemo.Pepper => TtsRequest text None animated
  | _ => Printed ("Error: device " +:+ ConversationDemo.device_repr me +:+ " not recognized")
  end.

(** The world after one attempt that got the reply [r]. *)
Definition after (p : primitive) (question : string) (r : reply) (w : world) : world :=
  match p with
  | Listen me speed =>
      next_reply (emit (request_of p)
        (emit (TtsRequest (" \rspd=" +:+ str_of_Z speed +:+ "\ " +:+ question)
                 (Some "Dutch") true) w))
  | AskYesno me | AskEntity me _ _ _ | AskOpen me =>
      emit (Printed ("The detected intent: " +:+ str_of_opt (intent r)))
        (next_reply (emit (request_of p) (emit (say_event me question true) w)))
  end.

(** ** Services that answer, services that fail *)

Definition is_gpt_request (e : event) : bool :=
  match e with GptRequest _ => true | _ => false end.

(** The completion requests in a trace. *)
Definition gpt_requests (tr : list event) : list event :=
  filter (fun e => is_gpt_request e = true) tr.

(** [w'] has the services of [w]. *)
Definition same_services (w w' : world) : Prop :=
  recognizer w' = recognizer w /\ completer w' = completer w.

(** Both services answer every request. *)
Definition replying (w : world) : Prop :=
  (forall k, exists r, recognizer w k = inr r)
  /\ (forall k, exists s, completer w k = inr s).

(** From [w] to [w'] exactly [a] recognition requests and [g] completion
    requests have gone out, and the services are the same. *)
Definition grows (w w' : world) (a g : nat) : Prop :=
  same_services w w'
  /\ length (intent_requests (trace w')) = length (intent_requests (trace w)) + a
  /\ length (gpt_requests (trace w')) = length (gpt_requests (trace w)) + g.

(** With services that answer, the computation returns after at most [a]
    recognition requests and [g] completion requests. *)
Definition within {A} (a g : nat) (c : M A) : Prop :=
  forall w, replying w ->
    exists v w' a' g', c w = (Return v, w') /\ a' <= a /\ g' <= g /\ grows w w' a' g'.

(** *** The dialogue history of [MemoLLM.run] *)

(** The prompt [llm_action] sends for a dialogue history. *)
Definition complete_prompt (dialog_history : string) : string :=
  if truthy dialog_history
  then MemoLLM.base_prompt +:+ ("Dit is het gesprek tot nu toe: " +:+ dialog_history)
  else MemoLLM.base_prompt.

(** The history after one more turn: Memo's line, closed by a newline,
    and the person's line, which is not. *)
Definition after_turn (dialog_history response : string) (user_response : option string)
  : string :=
  (dialog_history +:+ ("Memo: " +:+ response +:+ nl))
  +:+ ("Persoon: " +:+ str_of_opt user_response).

(** The histories at the start of each turn and after the last one. *)
Fixpoint histories (dialog_history : string) (turns : list (string * option string))
  : list string :=
  match turns with
  | [] => [dialog_history]
  | (response, user_response) :: rest =>
      dialog_history :: histories (after_turn dialog_history response user_response) rest
  end.

(** The computation sends no completion request and leaves both services
    as they are. *)
Definition no_completion {A} (c : M A) : Prop :=
  forall w,
    gpt_requests (trace (c w).2) = gpt_requests (trace w)
    /\ completer (c w).2 = completer w
    /\ completed (c w).2 = completed w
    /\ recognizer (c w).2 = recognizer w.

(** *** Speech *)

(** The events that make a sound: a text-to-speech request, a call of
    [espeak], a request to the speaker. *)
Definition is_speech (e : event) : bool :=
  match e with
  | TtsRequest _ _ _ | Espeak _ | SpeakerRequest _ _ => true
  | _ => false
  end.

Definition speech (tr : list event) : list event :=
  filter (fun e => is_speech e = true) tr.

(** The computation adds to the trace, and nothing that makes a sound. *)
Definition silent {A} (c : M A) : Prop :=
  forall w, exists more, trace (c w).2 = trace w ++ more /\ speech more = [].

(** ** Sample sessions and worlds *)

Definition sample_time : struct_time :=
  {| tm_year := 2025; tm_mon := 3; tm_mday := 9; tm_hour := 14; tm_min := 5; tm_sec := 59 |}.

Definition later_time : struct_time :=
  {| tm_year := 2025; tm_mon := 3; tm_mday := 9; tm_hour := 14; tm_min := 6; tm_sec := 7 |}.

Definition sample_utterances : list utterance :=
  [("Memo", "Hallo, hoe gaat het?", sample_time); ("Persoon", "goed", later_time)].

(** The worker opens the file before the start marker is queued and
    writes the first records while the driver is still talking. *)
Definition sample_schedule : list tid :=
  [Driver; Driver; Driver; Worker 0; Worker 0; Driver; Worker 0; Driver;
   Worker 0; Worker 0; Driver; Driver]
  ++ repeat (Worker 0) 11 ++ [Driver].

Definition sample_final : config :=
  run_to sample_schedule (session_boot ∅ "s1" sample_time sample_utterances).

(** A session whose one utterance is a text of two lines. *)
Definition verse_utterances : list utterance :=
  [("Memo", "rozen zijn rood" +:+ nl +:+ "viooltjes blauw", later_time)].

Definition verse_schedule : list tid :=
  repeat Driver 6 ++ repeat (Worker 0) 12 ++ [Driver].

Definition verse_final : config :=
  run_to verse_schedule (session_boot ∅ "s2" sample_time verse_utterances).

(** The sample session run on a disk where [logs/s1.log] already exists. *)
Definition reused_final : config :=
  run_to sample_schedule
    (session_boot {[ "logs/s1.log" := "oude tekst" +:+ nl ]} "s1" sample_time sample_utterances).

(** The sample session with an absolute path for its id. *)
Definition absolute_final : config :=
  run_to sample_schedule (session_boot ∅ "/tmp/x" sample_time sample_utterances).

(** Two sessions on the same log, and calls made after the last one. *)
Definition two_sessions : list session_spec :=
  [("s1", sample_time, [("Memo", "Hallo", sample_time)]);
   ("s1", later_time, [("Persoon", "dag", later_time)])].

Definition two_sessions_schedule : list tid :=
  repeat Driver 6 ++ repeat (Worker 0) 12 ++ [Driver]
  ++ repeat Driver 6 ++ repeat (Worker 1) 12 ++ [Driver].

Definition late_calls : list late_call :=
  [CallLogUtterance "Memo" "nog iets" later_time; CallStopLogging].

(** The sample worlds: a recognizer that always gives the same reply. *)
Definition quiet_world (r : reply) : world :=
  {| trace := []; recognizer := fun _ => inr r; asked := 0;
     completer := fun _ => inr "Stop"; completed := 0;
     clock := fun _ => sample_time; ticks := 0; logging := fresh ∅ |}.

Definition sample_demo : ConversationDemo.self :=
  {| ConversationDemo.device := ConversationDemo.Desktop;
     ConversationDemo.device_repr := "Desktop";
     ConversationDemo.other_speaker := inr tt;
     ConversationDemo.lang := "nl";
     ConversationDemo.request_id := 4711 |}.

Definition sample_memo : MemoLLM.self := {| MemoLLM.request_id := 4711 |}.

Definition reply_with (name : option string) (text : string) : reply :=
  {| intent := name; query_text := text; parameters := None |}.

(** A recognizer that gives [first] to the first request and [next] to
    every later one. *)
Definition second_try_world (first next : reply) : world :=
  {| trace := [];
     recognizer := fun k => match k with O => inr first | S _ => inr next end;
     asked := 0;
     completer := fun _ => inr "Stop"; completed := 0;
     clock := fun _ => sample_time; ticks := 0; logging := fresh ∅ |}.

Definition nao_demo : ConversationDemo.self :=
  {| ConversationDemo.device := ConversationDemo.Nao;
     ConversationDemo.device_repr := "Nao";
     ConversationDemo.other_speaker := inr tt;
     ConversationDemo.lang := "nl";
     ConversationDemo.request_id := 4711 |}.

Definition pepper_demo : ConversationDemo.self :=
  {| ConversationDemo.device := ConversationDemo.Pepper;
     ConversationDemo.device_repr := "Pepper";
     ConversationDemo.other_speaker := inr tt;
     ConversationDemo.lang := "nl";
     ConversationDemo.request_id := 4711 |}.

(** Two clips: 16-bit PCM, and 32-bit IEEE float. *)
Definition pcm16_clip : ConversationDemo.wav_file :=
  {| ConversationDemo.format := ConversationDemo.Pcm; ConversationDemo.nchannels := 1;
     ConversationDemo.sample_rate := 44100; ConversationDemo.bits_per_sample := 16;
     ConversationDemo.data := ["abcd"; "efgh"] |}.

Definition pcm24_clip : ConversationDemo.wav_file :=
  {| ConversationDemo.format := ConversationDemo.Pcm; ConversationDemo.nchannels := 1;
     ConversationDemo.sample_rate := 44100; ConversationDemo.bits_per_sample := 24;
     ConversationDemo.data := ["abc"; "def"] |}.

Definition float32_clip : ConversationDemo.wav_file :=
  {| ConversationDemo.format := ConversationDemo.IeeeFloat; ConversationDemo.nchannels := 1;
     ConversationDemo.sample_rate := 44100; ConversationDemo.bits_per_sample := 32;
     ConversationDemo.data := ["abcd"; "efgh"] |}.

(** A world whose recognizer gives the [replies] in turn and then [rest],
    and whose language model gives the [answers] in turn and then the
    empty text. *)
Definition scripted_world (replies : list reply) (rest : reply)
    (answers : list (exn + string)) : world :=
  {| trace := [];
     recognizer := fun k => inr (nth k replies rest);
     asked := 0;
     completer := fun k => nth k answers (inr EmptyString);
     completed := 0;
     clock := fun _ => sample_time; ticks := 0; logging := fresh ∅ |}.

(** A reply with the intent [animals] and the animal [dier]. *)
Definition animal_reply (dier : string) : reply :=
  {| intent := Some "animals"; query_text := dier;
     parameters := Some {[ "animals" := dier ]} |}.

(** A world with a session of logging under way, a person who is never
    heard, and a language model that asks one question and then stops. *)
Definition unheard_world : world :=
  {| trace := []; recognizer := fun _ => inr (reply_with None EmptyString);
     asked := 0;
     completer := fun k => match k with O => inr "Hoe gaat het?" | S _ => inr "stop" end;
     completed := 0;
     clock := fun k => match k with O => sample_time | S _ => later_time end;
     ticks := 0;
     logging := obj (run_to (repeat Driver 4)
                       (boot (MemoLLM.start_logging "s1" sample_time) ∅)) |}.

Definition start_logging_arity_error : exn :=
  TypeError "MemoLLM.start_logging() missing 1 required positional argument: 'log_id'".

(** A world whose language model answers [first] and then ["stop"]. *)
Definition chat_world (first : string) : world :=
  {| trace := []; recognizer := fun _ => inr (reply_with None "prima");
     asked := 0;
     completer := fun k => match k with O => inr first | S _ => inr "stop" end;
     completed := 0;
     clock := fun _ => sample_time; ticks := 0; logging := fresh ∅ |}.


(** * Proofs *)

(** ** Strings *)

Lemma append_nil_l (s : string) : EmptyString +:+ s = s.
Proof. reflexivity. Qed.

Lemma append_cons (c : ascii) (a b : string) : String c a +:+ b = String c (a +:+ b).
Proof. reflexivity. Qed.

Lemma append_nil_r (s : string) : s +:+ EmptyString = s.
Proof.
  induction s as [|c s IH]; [reflexivity|].
  now rewrite append_cons, IH.
Qed.

Lemma append_assoc (a b c : string) : (a +:+ b) +:+ c = a +:+ (b +:+ c).
Proof.
  induction a as [|x a IH]; [reflexivity|].
  now rewrite !append_cons, IH.
Qed.

Lemma text_of_app (l1 l2 : list string) :
  text_of (l1 ++ l2) = text_of l1 +:+ text_of l2.
Proof.
  induction l1 as [|r l1 IH]; simpl; [reflexivity|].
  now rewrite IH, !append_assoc.
Qed.

(** ** The system always moves towards rest *)

Lemma sum_with_app {A} (f : A -> nat) (l1 l2 : list A) :
  sum_with f (l1 ++ l2) = sum_with f l1 + sum_with f l2.
Proof. induction l1 as [|x l1 IH]; simpl; [reflexivity | rewrite IH; lia]. Qed.

Lemma sum_with_insert {A} (f : A -> nat) (l : list A) (i : nat) (x y : A) :
  l !! i = Some x ->
  sum_with f (<[i := y]> l) + f x = sum_with f l + f y.
Proof.
  revert i; induction l as [|a l IH]; intros [|i] H; simpl in *; try discriminate.
  - injection H as ->. lia.
  - specialize (IH i H). lia.
Qed.

Lemma weight_pos (o : op) : 1 <= weight o.
Proof. induction o; simpl; lia. Qed.

Lemma exec_op_load (o : op) (s s' : logger) :
  exec_op o s = Done s' -> load s' + 1 <= load s + weight o.
Proof.
  revert s s'; induction o; intros s s' H; simpl in H.
  - injection H as <-. unfold load; simpl. lia.
  - injection H as <-. unfold load; simpl. rewrite sum_with_app; simpl. lia.
  - injection H as <-. unfold load; simpl. rewrite sum_with_app; simpl. lia.
  - destruct (log_queue s) as [q|]; [|discriminate].
    destruct (queues s !! q) as [content|] eqn:Hq; [|discriminate].
    injection H as <-. unfold load; simpl.
    pose proof (sum_with_insert (@length item) _ _ _ (content ++ [x]) Hq) as E.
    rewrite length_app in E; simpl in E. lia.
  - destruct (log_thread s) as [i|]; [|discriminate].
    destruct (threads s !! i) as [w|]; [|discriminate].
    destruct (finished w); [|discriminate].
    injection H as <-. simpl. lia.
  - destruct (log_queue s); [now apply IHo|].
    injection H as <-. pose proof (weight_pos o). simpl. lia.
  - destruct (log_thread s); [now apply IHo|].
    injection H as <-. pose proof (weight_pos o). simpl. lia.
Qed.

Lemma log_writer_load (i : nat) (s s' : logger) :
  MemoLLM.log_writer i s = Some s' -> load s' < load s.
Proof.
  unfold MemoLLM.log_writer. intros H.
  destruct (threads s !! i) as [w|] eqn:Hw; [|discriminate].
  destruct w as [p|p buf|p buf q|p buf [line|]|p buf| |e]; try discriminate.
  - injection H as <-. unfold load; simpl.
    pose proof (sum_with_insert phase _ _ _ (WWaiting p EmptyString) Hw) as E.
    simpl in E. lia.
  - destruct (log_queue s) as [q|]; injection H as <-; unfold load; simpl.
    + pose proof (sum_with_insert phase _ _ _ (WGetting p buf q) Hw) as E.
      simpl in E. lia.
    + pose proof (sum_with_insert phase _ _ _ (WFailed (none_has_no "get")) Hw) as E.
      simpl in E. lia.
  - destruct (queues s !! q) as [[|x rest]|] eqn:Hq; try discriminate.
    injection H as <-. unfold load; simpl.
    pose proof (sum_with_insert phase _ _ _ (WHolding p buf x) Hw) as E.
    pose proof (sum_with_insert (@length item) _ _ _ rest Hq) as E'.
    simpl in E, E'. lia.
  - injection H as <-. unfold load; simpl.
    pose proof (sum_with_insert phase _ _ _ (WWritten p (buf +:+ (line +:+ nl))) Hw) as E.
    simpl in E. lia.
  - injection H as <-. unfold load; simpl.
    pose proof (sum_with_insert phase _ _ _ WExited Hw) as E.
    simpl in E. lia.
  - injection H as <-. unfold load; simpl.
    pose proof (sum_with_insert phase _ _ _ (WWaiting p EmptyString) Hw) as E.
    simpl in E. lia.
Qed.

Lemma step_effort (c c' : config) : step c c' -> effort c' < effort c.
Proof.
  intros [c1 c2 H|i c1 c2 H]; unfold effort.
  - unfold driver_step in H.
    destruct (pending c1) as [|o rest]; [discriminate|].
    destruct (exec_op o (obj c1)) as [s'| |e] eqn:E; try discriminate;
      injection H as <-; simpl.
    + apply exec_op_load in E. lia.
    + pose proof (weight_pos o). lia.
  - unfold writer_step in H.
    destruct (MemoLLM.log_writer i (obj c1)) as [s'|] eqn:E; [|discriminate].
    injection H as <-; simpl. apply log_writer_load in E. lia.
Qed.

Lemma sched_step_sound (t : tid) (c c' : config) :
  sched_step t c = Some c' -> step c c'.
Proof.
  destruct t as [|i]; simpl; intros H; [now apply step_driver | now apply (step_writer i)].
Qed.

Lemma run_schedule_steps (sched : list tid) (c c' : config) :
  run_schedule sched c = Some c' -> rtc step c c'.
Proof.
  revert c; induction sched as [|t sched IH]; simpl; intros c H.
  - injection H as <-. apply rtc_refl.
  - destruct (sched_step t c) as [c1|] eqn:E; [|discriminate].
    eapply rtc_l; [eapply sched_step_sound; eassumption | now apply IH].
Qed.

Lemma steps_run_schedule (c c' : config) :
  rtc step c c' -> exists sched, run_schedule sched c = Some c'.
Proof.
  induction 1 as [c|c c1 c2 Hs _ [sched IH]].
  - now exists [].
  - destruct Hs as [a b H|i a b H].
    + exists (Driver :: sched). simpl. now rewrite H.
    + exists (Worker i :: sched). simpl. now rewrite H.
Qed.

(** ** One logging session under every interleaving *)

Lemma awaiting_cons (o : op) (rest : list op) :
  awaiting (o :: rest) = true ->
  (o = IfThread Join /\ rest = []) \/ (is_put o = true /\ awaiting rest = true).
Proof.
  destruct rest as [|o' rest']; simpl.
  - destruct o as [| | | | |o1|o1]; try discriminate.
    destruct o1; try discriminate. intros _. now left.
  - intros H. apply andb_true_iff in H. now right.
Qed.

Lemma exec_put (o : op) (s : logger) (q : list item) :
  is_put o = true -> log_queue s = Some 0 -> queues s = [q] ->
  exists x, puts_of o = [x] /\ exec_op o s = Done (set_queues [q ++ [x]] s).
Proof.
  intros Ho Hq Hqs. induction o; simpl in *; try discriminate.
  - exists x. rewrite Hq, Hqs. simpl. now split.
  - rewrite Hq. now apply IHo.
Qed.

Lemma file_content_open_append (p p' : string) (fs : gmap string string) :
  file_content (open_append p fs) p' = file_content fs p'.
Proof.
  unfold open_append, file_content.
  destruct (fs !! p) as [v|] eqn:E; [reflexivity|].
  destruct (decide (p = p')) as [->|Hne].
  - now rewrite lookup_insert_eq, E.
  - now rewrite lookup_insert_ne.
Qed.

Lemma file_content_append_eq (p data : string) (fs : gmap string string) :
  file_content (append_file p data fs) p = file_content fs p +:+ data.
Proof. unfold append_file, file_content at 1. now rewrite lookup_insert_eq. Qed.

Lemma file_content_append_ne (p p' data : string) (fs : gmap string string) :
  p <> p' -> file_content (append_file p data fs) p' = file_content fs p'.
Proof. intros H. unfold append_file, file_content at 1 3. now rewrite lookup_insert_ne. Qed.

Lemma map_some_end (D R : list string) (t : list item) :
  map Some D ++ None :: t = map Some R ++ [None] -> D = R /\ t = [].
Proof.
  revert R; induction D as [|d D IH]; intros [|r R] H; simpl in H.
  - injection H as ->. now split.
  - discriminate.
  - injection H as _ H. destruct D; discriminate.
  - injection H as -> H. destruct (IH R H) as [-> ->]. now split.
Qed.

Lemma map_some_prefix (D R : list string) (t : list item) :
  map Some D ++ t = map Some R ++ [None] -> exists k, D = take k R.
Proof.
  revert R; induction D as [|d D IH]; intros R H.
  - now exists 0.
  - destruct R as [|r R]; simpl in H.
    + discriminate.
    + injection H as -> H. destruct (IH R H) as [k ->]. now exists (S k).
Qed.

Lemma step_cases (c c' : config) :
  step c c' -> driver_step c = Some c' \/ exists i, writer_step i c = Some c'.
Proof. intros [a b H|i a b H]; [now left | right; now exists i]. Qed.

(** A worker that does not exist cannot move. *)
Ltac now_idle H :=
  unfold writer_step, MemoLLM.log_writer in H; simpl in H; discriminate H.

Section Session.

Variable fs0 : gmap string string.
Variable log_id : string.
Variable t0 : struct_time.
Variable us : list utterance.

Lemma session_tail :
  awaiting (concat (map utterance_ops us) ++ MemoLLM.stop_logging) = true
  /\ puts (concat (map utterance_ops us) ++ MemoLLM.stop_logging)
     = map Some (map utterance_line us) ++ [None].
Proof.
  induction us as [|[[speaker text] now] l [IH1 IH2]]; [now split|].
  split.
  - change (awaiting (IfQueue (Put (Some (MemoLLM.format_utterance now speaker text)))
              :: (concat (map utterance_ops l) ++ MemoLLM.stop_logging)) = true).
    destruct (concat (map utterance_ops l) ++ MemoLLM.stop_logging) eqn:E;
      [discriminate IH1 | exact IH1].
  - change (Some (MemoLLM.format_utterance now speaker text)
              :: puts (concat (map utterance_ops l) ++ MemoLLM.stop_logging)
            = Some (MemoLLM.format_utterance now speaker text)
              :: (map Some (map utterance_line l) ++ [None])).
    now rewrite IH2.
Qed.

Lemma session_inv_boot : session_inv fs0 log_id t0 us (session_boot fs0 log_id t0 us).
Proof. left. exists 0. split; [lia | reflexivity]. Qed.

Lemma starting_step (c c' : config) :
  starting fs0 log_id t0 us c -> step c c' -> session_inv fs0 log_id t0 us c'.
Proof.
  intros (k & Hk & Hrun) Hstep.
  destruct session_tail as [Ht1 Ht2].
  destruct k as [|[|[|k]]]; [| | |lia]; simpl in Hrun; injection Hrun as <-.
  - destruct (step_cases _ _ Hstep) as [H|[i H]]; [|now_idle H].
    injection H as <-. left. exists 1. split; [lia | reflexivity].
  - destruct (step_cases _ _ Hstep) as [H|[i H]]; [|now_idle H].
    injection H as <-. left. exists 2. split; [lia | reflexivity].
  - destruct (step_cases _ _ Hstep) as [H|[i H]]; [|now_idle H].
    injection H as <-. right.
    exists [], (WOpening (session_path log_id)), [], [].
    simpl. repeat split; try reflexivity.
    + change (Some (MemoLLM.start_marker t0)
                :: puts (concat (map utterance_ops us) ++ MemoLLM.stop_logging)
              = (session_items t0 us)).
      now rewrite Ht2.
    + unfold before. now rewrite append_nil_r.
    + left.
      destruct (concat (map utterance_ops us) ++ MemoLLM.stop_logging) eqn:E;
        [discriminate Ht1 | exact Ht1].
Qed.

Lemma in_session_driver (c c' : config) :
  in_session fs0 log_id t0 us c -> driver_step c = Some c' -> in_session fs0 log_id t0 us c'.
Proof.
  intros (q & w & D & I & Hr & Hlq & Hlt & Hq & Hw & Heq & Hok & Hfile & Hrest & Htail) H.
  unfold driver_step in H.
  destruct (pending c) as [|o rest] eqn:Hp; [discriminate|].
  destruct Htail as [Htail|[Hnil _]]; [|discriminate].
  destruct (awaiting_cons _ _ Htail) as [[-> ->]|[Hput Hrest']].
  - (* the join *)
    simpl in H. rewrite Hlt, Hw in H. simpl in H.
    destruct (finished w) eqn:Hfin; [|discriminate].
    injection H as <-.
    exists q, w, D, I. simpl. repeat split; try assumption.
    right. split; [reflexivity|].
    destruct w; try discriminate; [reflexivity | destruct Hok].
  - (* a put *)
    destruct (exec_put o (obj c) q Hput Hlq Hq) as (x & Hx & Hexec).
    rewrite Hexec in H. injection H as <-.
    exists (q ++ [x]), w, D, I. simpl. repeat split; try assumption.
    + rewrite <- Heq. unfold puts. simpl. rewrite Hx.
      now rewrite <- !app_assoc.
    + now left.
Qed.

Lemma in_session_writer (i : nat) (c c' : config) :
  in_session fs0 log_id t0 us c -> writer_step i c = Some c' -> in_session fs0 log_id t0 us c'.
Proof.
  intros (q & w & D & I & Hr & Hlq & Hlt & Hq & Hw & Heq & Hok & Hfile & Hrest & Htail) H.
  unfold writer_step, MemoLLM.log_writer in H. rewrite Hw in H.
  destruct i as [|i]; [|discriminate]. simpl in H.
  assert (Htail' : awaiting (pending c) = true \/ pending c = [] /\ w = WExited)
    by exact Htail.
  destruct w as [p|p buf|p buf q'|p buf [line|]|p buf| |e]; simpl in Hok.
  - destruct Hok as [-> ->]. injection H as <-.
    exists q, (WWaiting (session_path log_id) EmptyString), D, []. simpl.
    repeat split; try assumption.
    + now rewrite file_content_open_append.
    + intros p Hp. rewrite file_content_open_append. now apply Hrest.
    + destruct Htail as [?|[_ ?]]; [now left | discriminate].
  - destruct Hok as (-> & -> & ->). rewrite Hlq in H. injection H as <-.
    exists q, (WGetting (session_path log_id) EmptyString 0), D, []. simpl.
    repeat split; try assumption.
    destruct Htail as [?|[_ ?]]; [now left | discriminate].
  - destruct Hok as (-> & -> & -> & ->). rewrite Hq in H. simpl in H.
    destruct q as [|x rest]; [discriminate|]. injection H as <-.
    exists rest, (WHolding (session_path log_id) EmptyString x), D, [x]. simpl.
    repeat split; try assumption.
    destruct Htail as [?|[_ ?]]; [now left | discriminate].
  - destruct Hok as (-> & -> & ->). injection H as <-.
    exists q, (WWritten (session_path log_id) (line +:+ nl)), D, [Some line]. simpl.
    repeat split; try assumption.
    + now exists line.
    + destruct Htail as [?|[_ ?]]; [now left | discriminate].
  - destruct Hok as (-> & -> & ->). injection H as <-.
    exists q, WExited, D, [None]. simpl.
    repeat split; try assumption.
    + now rewrite file_content_append_eq, append_nil_r.
    + intros p Hp. rewrite file_content_append_ne by congruence. now apply Hrest.
    + destruct Htail as [?|[_ ?]]; [now left | discriminate].
  - destruct Hok as (-> & line & -> & ->). injection H as <-.
    exists q, (WWaiting (session_path log_id) EmptyString), (D ++ [line]), []. simpl.
    repeat split; try assumption.
    + rewrite <- Heq. rewrite map_app. simpl. now rewrite <- !app_assoc.
    + rewrite file_content_append_eq, Hfile, text_of_app. simpl.
      now rewrite append_nil_r, append_assoc.
    + intros p Hp. rewrite file_content_append_ne by congruence. now apply Hrest.
    + destruct Htail as [?|[_ ?]]; [now left | discriminate].
  - discriminate.
  - discriminate.
Qed.

Lemma session_inv_step (c c' : config) :
  session_inv fs0 log_id t0 us c -> step c c' -> session_inv fs0 log_id t0 us c'.
Proof.
  intros [Hs|Hs] Hstep.
  - now apply (starting_step c).
  - right. destruct (step_cases _ _ Hstep) as [H|[i H]].
    + now apply (in_session_driver c).
    + now apply (in_session_writer i c).
Qed.

Lemma session_inv_reach (c : config) :
  rtc step (session_boot fs0 log_id t0 us) c -> session_inv fs0 log_id t0 us c.
Proof.
  intros H.
  apply rtc_ind_r with (x := session_boot fs0 log_id t0 us)
                       (P := session_inv fs0 log_id t0 us) in H.
  - exact H.
  - apply session_inv_boot.
  - intros y z _ Hyz Hy. now apply (session_inv_step y).
Qed.

(** The driver is past [stop_logging] only in the final state. *)
Lemma session_returned (c : config) :
  session_inv fs0 log_id t0 us c -> returned c ->
  queues (obj c) = [[]] /\ threads (obj c) = [WExited]
  /\ file_content (files (obj c)) (session_path log_id)
     = (before fs0 log_id) +:+ text_of (session_records t0 us)
  /\ forall p, p <> (session_path log_id) ->
       file_content (files (obj c)) p = file_content fs0 p.
Proof.
  intros [(k & Hk & Hrun)|Hs] [Hp Hr].
  - destruct k as [|[|[|k]]]; [| | |lia]; simpl in Hrun; injection Hrun as <-;
      discriminate Hp.
  - destruct Hs as (q & w & D & I & _ & _ & _ & Hq & Hw & Heq & Hok & Hfile & Hrest & Htail).
    rewrite Hp in Htail, Heq. destruct Htail as [?|[_ ->]]; [discriminate|].
    simpl in Hok. subst I. unfold puts in Heq. simpl in Heq.
    rewrite app_nil_r in Heq.
    destruct (map_some_end _ _ _ Heq) as [-> ->].
    now repeat split.
Qed.

(** At any moment the file holds what was there before and then the
    first few records of the session, each whole. *)
Lemma session_prefix (c : config) :
  session_inv fs0 log_id t0 us c ->
  exists k, file_content (files (obj c)) (session_path log_id)
            = (before fs0 log_id) +:+ text_of (take k (session_records t0 us)).
Proof.
  intros [(k & Hk & Hrun)|Hs].
  - exists 0. rewrite take_0. simpl. rewrite append_nil_r.
    destruct k as [|[|[|k]]]; [| | |lia]; simpl in Hrun; injection Hrun as <-;
      reflexivity.
  - destruct Hs as (q & w & D & I & _ & _ & _ & Hq & Hw & Heq & Hok & Hfile & Hrest & Htail).
    destruct (map_some_prefix _ _ _ Heq) as [k ->]. now exists k.
Qed.

(** Unless the driver has returned, some thread can move. *)
Lemma session_progress (c : config) :
  session_inv fs0 log_id t0 us c -> ~ returned c -> exists c', step c c'.
Proof.
  intros [(k & Hk & Hrun)|Hs] Hnot.
  - destruct k as [|[|[|k]]]; [| | |lia]; simpl in Hrun; injection Hrun as <-;
      eexists; apply step_driver; reflexivity.
  - destruct Hs as (q & w & D & I & Hr & Hlq & Hlt & Hq & Hw & Heq & Hok & Hfile & Hrest & Htail).
    destruct Htail as [Htail|[Hnil _]]; [|exfalso; apply Hnot; now split].
    destruct (pending c) as [|o rest] eqn:Hp; [discriminate|].
    destruct (awaiting_cons _ _ Htail) as [[-> ->]|[Hput Hrest']].
    + (* the driver waits in [join] *)
      assert (Hw0 : forall s', MemoLLM.log_writer 0 (obj c) = Some s' ->
                exists c', step c c').
      { intros s' Hs'. eexists. apply (step_writer 0). unfold writer_step.
        rewrite Hs'. reflexivity. }
      unfold puts in Heq; simpl in Heq; rewrite app_nil_r in Heq.
      destruct w as [p|p buf|p buf q'|p buf [line|]|p buf| |e]; simpl in Hok.
      * eapply Hw0. unfold MemoLLM.log_writer. rewrite Hw. reflexivity.
      * eapply Hw0. unfold MemoLLM.log_writer. rewrite Hw, Hlq. reflexivity.
      * destruct Hok as (-> & -> & -> & ->). simpl in Heq.
        destruct q as [|x q].
        { exfalso. rewrite app_nil_r in Heq. unfold session_items in Heq.
          apply (f_equal (@rev item)) in Heq. rewrite rev_app_distr in Heq.
          simpl in Heq. rewrite <- map_rev in Heq.
          destruct (rev D); discriminate. }
        eapply Hw0. unfold MemoLLM.log_writer. rewrite Hw. simpl. rewrite Hq.
        reflexivity.
      * eapply Hw0. unfold MemoLLM.log_writer. rewrite Hw. reflexivity.
      * eapply Hw0. unfold MemoLLM.log_writer. rewrite Hw. reflexivity.
      * eapply Hw0. unfold MemoLLM.log_writer. rewrite Hw. reflexivity.
      * eexists. apply step_driver. unfold driver_step. rewrite Hp. simpl.
        rewrite Hlt, Hw. reflexivity.
      * destruct Hok.
    + destruct (exec_put o (obj c) q Hput Hlq Hq) as (x & Hx & Hexec).
      eexists. apply step_driver. unfold driver_step. rewrite Hp, Hexec. reflexivity.
Qed.

End Session.

(** Every action of either thread leaves what is on disk in place and at
    most adds text after it. *)
Lemma exec_op_files (o : op) (s s' : logger) :
  exec_op o s = Done s' -> files s' = files s.
Proof.
  revert s s'; induction o; intros s s' H; simpl in H.
  - now injection H as <-.
  - now injection H as <-.
  - now injection H as <-.
  - destruct (log_queue s) as [q|]; [|discriminate].
    destruct (queues s !! q); [|discriminate]. now injection H as <-.
  - destruct (log_thread s) as [i|]; [|discriminate].
    destruct (threads s !! i) as [w|]; [|discriminate].
    destruct (finished w); [|discriminate]. now injection H as <-.
  - destruct (log_queue s); [now apply IHo | now injection H as <-].
  - destruct (log_thread s); [now apply IHo | now injection H as <-].
Qed.

Lemma append_file_grows (p data : string) (fs : gmap string string) (p' : string) :
  exists more, file_content (append_file p data fs) p' = file_content fs p' +:+ more.
Proof.
  destruct (decide (p = p')) as [->|Hne].
  - exists data. apply file_content_append_eq.
  - exists EmptyString. now rewrite file_content_append_ne, append_nil_r.
Qed.

Lemma log_writer_files (i : nat) (s s' : logger) (p' : string) :
  MemoLLM.log_writer i s = Some s' ->
  exists more, file_content (files s') p' = file_content (files s) p' +:+ more.
Proof.
  unfold MemoLLM.log_writer. intros H.
  assert (Hsame : files s' = files s ->
            exists more, file_content (files s') p' = file_content (files s) p' +:+ more).
  { intros ->. exists EmptyString. now rewrite append_nil_r. }
  destruct (threads s !! i) as [w|]; [|discriminate].
  destruct w as [p|p buf|p buf q|p buf [line|]|p buf| |e]; try discriminate.
  - injection H as <-. simpl. exists EmptyString.
    now rewrite file_content_open_append, append_nil_r.
  - destruct (log_queue s); injection H as <-; now apply Hsame.
  - destruct (queues s !! q) as [[|x rest]|]; try discriminate.
    injection H as <-. now apply Hsame.
  - injection H as <-. now apply Hsame.
  - injection H as <-. simpl. apply append_file_grows.
  - injection H as <-. simpl. apply append_file_grows.
Qed.

Lemma step_appends (c c' : config) (p : string) :
  step c c' ->
  exists more, file_content (files (obj c')) p = file_content (files (obj c)) p +:+ more.
Proof.
  intros Hstep. destruct (step_cases _ _ Hstep) as [H|[i H]].
  - exists EmptyString. rewrite append_nil_r. unfold driver_step in H.
    destruct (pending c) as [|o rest]; [discriminate|].
    destruct (exec_op o (obj c)) as [s'| |e] eqn:E; try discriminate;
      injection H as <-; simpl; [|reflexivity].
    now rewrite (exec_op_files _ _ _ E).
  - unfold writer_step in H.
    destruct (MemoLLM.log_writer i (obj c)) as [s'|] eqn:E; [|discriminate].
    injection H as <-. simpl. now apply (log_writer_files i).
Qed.

Lemma steps_append (c c' : config) (p : string) :
  rtc step c c' ->
  exists more, file_content (files (obj c')) p = file_content (files (obj c)) p +:+ more.
Proof.
  induction 1 as [c|c c1 c2 Hs _ [more2 IH]].
  - exists EmptyString. now rewrite append_nil_r.
  - destruct (step_appends _ _ p Hs) as [more1 H1].
    exists (more1 +:+ more2). now rewrite IH, H1, append_assoc.
Qed.

Lemma run_schedule_effort (sched : list tid) (c c' : config) :
  run_schedule sched c = Some c' -> length sched + effort c' <= effort c.
Proof.
  revert c; induction sched as [|t sched IH]; simpl; intros c H.
  - injection H as <-. lia.
  - destruct (sched_step t c) as [c1|] eqn:E; [|discriminate].
    apply sched_step_sound, step_effort in E. specialize (IH _ H). lia.
Qed.

(** ** The shape of the log lines *)

Lemma digit_spec (n : nat) :
  is_digit (digit n) = true /\ Ascii.eqb (digit n) "010"%char = false.
Proof.
  unfold digit. pose proof (Nat.mod_upper_bound n 10) as Hm.
  set (m := n mod 10) in *.
  do 10 (destruct m as [|m]; [split; reflexivity|]). lia.
Qed.

Lemma strftime_chars (t : struct_time) :
  strftime t =
  String (digit (tm_year t / 1000)) (String (digit (tm_year t / 100))
  (String (digit (tm_year t / 10)) (String (digit (tm_year t))
  (String "-" (String (digit (tm_mon t / 10)) (String (digit (tm_mon t))
  (String "-" (String (digit (tm_mday t / 10)) (String (digit (tm_mday t))
  (String " " (String (digit (tm_hour t / 10)) (String (digit (tm_hour t))
  (String ":" (String (digit (tm_min t / 10)) (String (digit (tm_min t))
  (String ":" (String (digit (tm_sec t / 10)) (String (digit (tm_sec t))
  EmptyString)))))))))))))))))).
Proof. reflexivity. Qed.

Lemma strftime_shape (t : struct_time) : timestamp_shape (strftime t) = true.
Proof.
  rewrite strftime_chars. unfold timestamp_shape.
  cbn [list_ascii_of_string forallb].
  repeat rewrite (proj1 (digit_spec _)). reflexivity.
Qed.

Lemma single_line_app (a b : string) :
  single_line (a +:+ b) = single_line a && single_line b.
Proof.
  induction a as [|c a IH]; [reflexivity|].
  rewrite append_cons. cbn [single_line]. rewrite IH. now rewrite andb_assoc.
Qed.

Lemma strftime_single_line (t : struct_time) : single_line (strftime t) = true.
Proof.
  rewrite strftime_chars. cbn [single_line].
  repeat rewrite (proj2 (digit_spec _)). reflexivity.
Qed.

Lemma prefix_app (a b : string) : String.prefix a (a +:+ b) = true.
Proof.
  induction a as [|c a IH]; [now destruct b|].
  rewrite append_cons. cbn [String.prefix].
  destruct (ascii_dec c c) as [_|Hne]; [exact IH | now destruct Hne].
Qed.

Lemma str_in_app (n a b : string) : str_in n (a +:+ (n +:+ b)) = true.
Proof.
  induction a as [|c a IH].
  - rewrite append_nil_l. destruct (n +:+ b) eqn:E; cbn [str_in];
      rewrite <- E, prefix_app; reflexivity.
  - rewrite append_cons. cbn [str_in]. rewrite IH. apply orb_true_r.
Qed.

Lemma format_utterance_chars (now : struct_time) (speaker text : string) :
  MemoLLM.format_utterance now speaker text =
  String "[" (strftime now +:+ ("] " +:+ (speaker +:+ (": " +:+ text)))).
Proof. reflexivity. Qed.

Lemma substring_19 (t : struct_time) (tail : string) :
  substring 0 19 (strftime t +:+ tail) = strftime t /\ skip 19 (strftime t +:+ tail) = tail.
Proof. rewrite strftime_chars. split; [destruct tail; reflexivity | reflexivity]. Qed.

Lemma utterance_line_shape (u : utterance) : line_shape (utterance_line u) = true.
Proof.
  destruct u as [[speaker text] now]. unfold utterance_line.
  rewrite format_utterance_chars. unfold line_shape.
  destruct (substring_19 now ("] " +:+ (speaker +:+ (": " +:+ text)))) as [E1 E2].
  rewrite E1, strftime_shape.
  assert (E3 : skip 21 (strftime now +:+ ("] " +:+ (speaker +:+ (": " +:+ text))))
               = speaker +:+ (": " +:+ text)).
  { rewrite strftime_chars. reflexivity. }
  rewrite E2, E3, str_in_app, prefix_app. reflexivity.
Qed.

Lemma start_marker_shape (t : struct_time) : marker_shape (MemoLLM.start_marker t) = true.
Proof.
  change (MemoLLM.start_marker t)
    with (String "[" (strftime t +:+ "] ### START NEW LOG ###")).
  unfold marker_shape.
  destruct (substring_19 t "] ### START NEW LOG ###") as [E1 E2].
  rewrite E1, E2, strftime_shape. reflexivity.
Qed.

Lemma utterance_line_single (speaker text : string) (now : struct_time) :
  single_line speaker = true -> single_line text = true ->
  single_line (utterance_line (speaker, text, now)) = true.
Proof.
  intros Hs Ht. unfold utterance_line, MemoLLM.format_utterance.
  rewrite !single_line_app, strftime_single_line, Hs, Ht. reflexivity.
Qed.

Lemma start_marker_single (t : struct_time) : single_line (MemoLLM.start_marker t) = true.
Proof.
  unfold MemoLLM.start_marker.
  rewrite !single_line_app, strftime_single_line. reflexivity.
Qed.

Lemma lines_from_record (cur r rest : string) :
  single_line r = true ->
  lines_from cur ((r +:+ nl) +:+ rest) = (cur +:+ r) :: lines_from EmptyString rest.
Proof.
  revert cur; induction r as [|c r IH]; intros cur Hr.
  - rewrite append_nil_r. reflexivity.
  - cbn [single_line] in Hr. apply andb_true_iff in Hr as [Hc Hr].
    rewrite !append_cons. cbn [lines_from].
    destruct (Ascii.eqb c "010"%char); [discriminate|].
    rewrite IH by assumption. now rewrite append_assoc.
Qed.

Lemma lines_of_text (records : list string) :
  forallb single_line records = true -> lines_of (text_of records) = records.
Proof.
  unfold lines_of. induction records as [|r l IH]; [reflexivity|].
  cbn [forallb text_of]. intros H. apply andb_true_iff in H as [Hr Hl].
  rewrite lines_from_record by assumption. now rewrite IH.
Qed.

(** ** The path of the log *)

Lemma split_from_file_name (s cur : string) :
  file_name s = true -> split_from cur s = [cur +:+ s].
Proof.
  revert cur. induction s as [|c s IH]; intros cur H; cbn [split_from].
  - now rewrite append_nil_r.
  - cbn [file_name] in H. apply andb_true_iff in H as [H Hs].
    apply andb_true_iff in H as [Hc _].
    destruct (Ascii.eqb c "/"%char); [discriminate Hc|].
    rewrite (IH _ Hs), append_assoc. reflexivity.
Qed.

Lemma file_name_app (a b : string) :
  file_name (a +:+ b) = file_name a && file_name b.
Proof.
  induction a as [|c a IH]; [reflexivity|].
  rewrite append_cons. cbn [file_name]. rewrite IH. now rewrite andb_assoc.
Qed.

Lemma leading_slashes_file_name (s : string) :
  file_name s = true -> leading_slashes s = 0.
Proof.
  destruct s as [|c s]; [reflexivity|]. cbn [file_name leading_slashes]. intros H.
  apply andb_true_iff in H as [H _]. apply andb_true_iff in H as [Hc _].
  now destruct (Ascii.eqb c "/"%char).
Qed.

Lemma length_append (a b : string) :
  String.length (a +:+ b) = String.length a + String.length b.
Proof.
  induction a as [|c a IH]; [reflexivity|]. rewrite append_cons. simpl. now rewrite IH.
Qed.

Lemma is_part_log (log_id : string) : is_part (log_id +:+ ".log") = true.
Proof.
  unfold is_part.
  assert (H : forall x, String.length x < 4 -> String.eqb (log_id +:+ ".log") x = false).
  { intros x Hx. apply String.eqb_neq. intros E. apply (f_equal String.length) in E.
    rewrite length_append in E. simpl in E. lia. }
  rewrite !H by (simpl; lia). reflexivity.
Qed.

(** For a session id that is a file name, the log is the file
    [logs/<log_id>.log]. *)
Lemma log_path_of_file_name (log_id : string) :
  file_name log_id = true -> MemoLLM.log_path_of log_id = "logs/" +:+ log_id +:+ ".log".
Proof.
  intros H.
  assert (Hn : file_name (log_id +:+ ".log") = true) by now rewrite file_name_app, H.
  assert (HP : Path (log_id +:+ ".log")
               = {| path_root := EmptyString; path_parts := [log_id +:+ ".log"] |}).
  { unfold Path, split_slash.
    rewrite (leading_slashes_file_name _ Hn), (split_from_file_name _ _ Hn), append_nil_l.
    cbn [List.filter]. now rewrite is_part_log. }
  unfold MemoLLM.log_path_of. rewrite HP. reflexivity.
Qed.

(** ** The claims about the log writer *)

(** C1, as stated, fails: a record is written followed by one newline, so
    a record whose text itself holds a newline takes two lines of the
    file.  The session submits two records (the start marker and one
    utterance) and the file has three lines. *)
Lemma log_record_lines_counterexample :
  returned verse_final
  /\ length (session_records sample_time verse_utterances) = 2
  /\ length (lines_of (file_content (files (obj verse_final)) "logs/s2.log")) = 3
  /\ lines_of (file_content (files (obj verse_final)) "logs/s2.log")
     <> session_records sample_time verse_utterances.
Proof.
  split; [split; vm_compute; reflexivity|].
  split; [vm_compute; reflexivity|].
  split; [vm_compute; reflexivity|].
  intros H. apply (f_equal (@length string)) in H. vm_compute in H. discriminate H.
Qed.

(** C1 (amended): under every interleaving of the driver and the worker,
    the file holds at any moment what it held before the session followed
    by the first [k] submitted records, in submission order, each followed
    by one newline; once [stop_logging] has returned it holds all of them;
    and when no record contains a newline, the lines of that text are
    exactly the records. *)
Theorem log_writer_fifo (fs0 : gmap string string) (log_id : string) (t0 : struct_time)
    (us : list utterance) (sched : list tid) (c : config) :
  run_schedule sched (session_boot fs0 log_id t0 us) = Some c ->
  (exists k, file_content (files (obj c)) (session_path log_id)
             = before fs0 log_id +:+ text_of (take k (session_records t0 us)))
  /\ (returned c ->
      file_content (files (obj c)) (session_path log_id)
      = before fs0 log_id +:+ text_of (session_records t0 us))
  /\ (forallb single_line (session_records t0 us) = true ->
      lines_of (text_of (session_records t0 us)) = session_records t0 us).
Proof.
  intros Hrun. apply run_schedule_steps, session_inv_reach in Hrun.
  split; [now apply session_prefix|].
  split; [|apply lines_of_text].
  intros Hret. now destruct (session_returned _ _ _ _ _ Hrun Hret) as (_ & _ & H & _).
Qed.

Lemma log_writer_fifo_witness :
  file_content (files (obj sample_final)) "logs/s1.log"
  = text_of (session_records sample_time sample_utterances)
  /\ lines_of (text_of (session_records sample_time sample_utterances))
     = session_records sample_time sample_utterances.
Proof.
  assert (E : run_schedule sample_schedule
                (session_boot ∅ "s1" sample_time sample_utterances) = Some sample_final)
    by (vm_compute; reflexivity).
  assert (R : returned sample_final) by (split; vm_compute; reflexivity).
  destruct (log_writer_fifo ∅ "s1" sample_time sample_utterances sample_schedule
              sample_final E) as (_ & H2 & H3).
  split; [exact (H2 R) | apply H3; vm_compute; reflexivity].
Defined.

(** C2: in a session, under every interleaving: when [stop_logging] has
    returned, the worker has taken the end signal and everything queued
    before it, the text is on disk, the file is closed and the thread has
    finished ([WExited]), and the queue is empty.  And [stop_logging] does
    return: as long as the driver has not returned some thread can move,
    and a schedule is never longer than the effort the session starts
    with. *)
Theorem stop_logging_joins_writer (fs0 : gmap string string) (log_id : string)
    (t0 : struct_time) (us : list utterance) (sched : list tid) (c : config) :
  run_schedule sched (session_boot fs0 log_id t0 us) = Some c ->
  (returned c ->
     threads (obj c) = [WExited] /\ queues (obj c) = [[]]
     /\ file_content (files (obj c)) (session_path log_id)
        = before fs0 log_id +:+ text_of (session_records t0 us))
  /\ (~ returned c -> exists c', step c c')
  /\ length sched + effort c <= effort (session_boot fs0 log_id t0 us).
Proof.
  intros Hrun. pose proof (run_schedule_effort _ _ _ Hrun) as Heff.
  apply run_schedule_steps, session_inv_reach in Hrun.
  split; [|split; [now apply (session_progress fs0 log_id t0 us) | exact Heff]].
  intros Hret.
  now destruct (session_returned _ _ _ _ _ Hrun Hret) as (Hq & Ht & H & _).
Qed.

Lemma stop_logging_joins_writer_witness :
  returned sample_final
  /\ threads (obj sample_final) = [WExited] /\ queues (obj sample_final) = [[]]
  /\ file_content (files (obj sample_final)) "logs/s1.log"
     = text_of (session_records sample_time sample_utterances).
Proof.
  assert (E : run_schedule sample_schedule
                (session_boot ∅ "s1" sample_time sample_utterances) = Some sample_final)
    by (vm_compute; reflexivity).
  assert (R : returned sample_final) by (split; vm_compute; reflexivity).
  destruct (stop_logging_joins_writer ∅ "s1" sample_time sample_utterances
              sample_schedule sample_final E) as (H1 & _ & _).
  split; [exact R | exact (H1 R)].
Defined.

Lemma utterance_lines_single (us : list utterance) :
  Forall (fun u => single_line (fst (fst u)) && single_line (snd (fst u)) = true) us ->
  forallb single_line (map utterance_line us) = true.
Proof.
  induction 1 as [|[[speaker text] now] l H _ IH]; [reflexivity|].
  simpl in H. apply andb_true_iff in H as [Hs Ht].
  cbn [map forallb]. now rewrite utterance_line_single, IH.
Qed.

Lemma session_lines_records (t0 : struct_time) (us : list utterance) :
  session_records t0 us = session_lines t0 us.
Proof.
  unfold session_records, session_lines. f_equal.
  apply map_ext. now intros [[speaker text] now].
Qed.

(** C8, as stated, fails on three counts.  A text of two lines gives a
    line of the file that has not the shape [[timestamp] speaker: text].
    The file is opened for appending, so on a disk where it exists already
    its first line is not this session's start marker.  And the path is
    [Path("logs") / f"{log_id}.log"], which for the id [/tmp/x] is the
    file [/tmp/x.log], outside [logs]. *)
Lemma log_line_shape_counterexample :
  (returned verse_final
   /\ nth 2 (lines_of (file_content (files (obj verse_final)) "logs/s2.log")) EmptyString
      = "viooltjes blauw"
   /\ forallb line_shape
        (tl (lines_of (file_content (files (obj verse_final)) "logs/s2.log"))) = false)
  /\ (returned reused_final
      /\ hd EmptyString (lines_of (file_content (files (obj reused_final)) "logs/s1.log"))
         = "oude tekst"
      /\ marker_shape
           (hd EmptyString (lines_of (file_content (files (obj reused_final)) "logs/s1.log")))
         = false)
  /\ (returned absolute_final
      /\ MemoLLM.log_path_of "/tmp/x" = "/tmp/x.log"
      /\ files (obj absolute_final) !! ("logs/" +:+ "/tmp/x" +:+ ".log") = None
      /\ lines_of (file_content (files (obj absolute_final)) "/tmp/x.log")
         = [ "[2025-03-09 14:05:59] ### START NEW LOG ###";
             "[2025-03-09 14:05:59] Memo: Hallo, hoe gaat het?";
             "[2025-03-09 14:06:07] Persoon: goed" ]).
Proof.
  split; [|split]; (split; [split; vm_compute; reflexivity|]);
    repeat split; vm_compute; reflexivity.
Qed.

(** C8 (amended): for a session id that is a file name (no slash in it),
    the session's log is the file [logs/<log_id>.log]; no action of either
    thread removes or changes text that is on disk; when [stop_logging]
    has returned the file holds its former content followed by the start
    marker [[<timestamp>] ### START NEW LOG ###] and then one record
    [[<timestamp>] <speaker>: <text>] per utterance, with the speaker and
    the text of that utterance and the time of its call, each followed by
    a newline, every timestamp of the shape [YYYY-MM-DD HH:MM:SS]; and
    when the file was absent or empty before and no speaker or text holds
    a newline, the lines of the file are exactly these: the marker first,
    then the utterance records. *)
Theorem log_file_format (fs0 : gmap string string) (log_id : string) (t0 : struct_time)
    (us : list utterance) (sched : list tid) (c : config) :
  file_name log_id = true ->
  run_schedule sched (session_boot fs0 log_id t0 us) = Some c ->
  session_path log_id = "logs/" +:+ log_id +:+ ".log"
  /\ (forall p, exists more, file_content (files (obj c)) p = file_content fs0 p +:+ more)
  /\ (returned c ->
      file_content (files (obj c)) ("logs/" +:+ log_id +:+ ".log")
      = file_content fs0 ("logs/" +:+ log_id +:+ ".log") +:+ text_of (session_lines t0 us))
  /\ timestamp_shape (strftime t0) = true
  /\ Forall (fun u : utterance => timestamp_shape (strftime (snd u)) = true) us
  /\ marker_shape (marker_line (strftime t0)) = true
  /\ Forall (fun u : utterance =>
               line_shape (record_line (strftime (snd u)) (fst (fst u)) (snd (fst u)))
               = true) us
  /\ (returned c -> file_content fs0 ("logs/" +:+ log_id +:+ ".log") = EmptyString ->
      Forall (fun u : utterance =>
                single_line (fst (fst u)) && single_line (snd (fst u)) = true) us ->
      lines_of (file_content (files (obj c)) ("logs/" +:+ log_id +:+ ".log"))
      = session_lines t0 us).
Proof.
  intros Hname Hrun. apply run_schedule_steps in Hrun.
  pose proof (session_inv_reach _ _ _ _ _ Hrun) as Hinv.
  pose proof (log_path_of_file_name log_id Hname) as Hpath.
  change (MemoLLM.log_path_of log_id) with (session_path log_id) in Hpath.
  assert (Hfile : returned c ->
            file_content (files (obj c)) ("logs/" +:+ log_id +:+ ".log")
            = file_content fs0 ("logs/" +:+ log_id +:+ ".log")
              +:+ text_of (session_lines t0 us)).
  { intros Hret.
    destruct (session_returned _ _ _ _ _ Hinv Hret) as (_ & _ & H & _).
    unfold before in H. rewrite Hpath in H. now rewrite <- session_lines_records. }
  split; [exact Hpath|].
  split; [intros p; exact (steps_append _ _ p Hrun)|].
  split; [exact Hfile|].
  split; [apply strftime_shape|].
  split; [apply Forall_forall; intros u _; apply strftime_shape|].
  split; [apply (start_marker_shape t0)|].
  split; [apply Forall_forall; intros [[speaker text] now] _;
          apply (utterance_line_shape (speaker, text, now))|].
  intros Hret Hempty Hsingle.
  rewrite (Hfile Hret), Hempty, append_nil_l, <- session_lines_records.
  apply (lines_of_text (session_records t0 us)).
  cbn [session_records forallb].
  now rewrite start_marker_single, utterance_lines_single.
Qed.

Lemma log_file_format_witness :
  lines_of (file_content (files (obj sample_final)) "logs/s1.log")
  = [ "[2025-03-09 14:05:59] ### START NEW LOG ###";
      "[2025-03-09 14:05:59] Memo: Hallo, hoe gaat het?";
      "[2025-03-09 14:06:07] Persoon: goed" ].
Proof.
  assert (E : run_schedule sample_schedule
                (session_boot ∅ "s1" sample_time sample_utterances) = Some sample_final)
    by (vm_compute; reflexivity).
  assert (R : returned sample_final) by (split; vm_compute; reflexivity).
  destruct (log_file_format ∅ "s1" sample_time sample_utterances sample_schedule
              sample_final eq_refl E) as (_ & _ & _ & _ & _ & _ & _ & H).
  refine (eq_trans (H R _ _) _).
  - vm_compute; reflexivity.
  - repeat constructor.
  - vm_compute; reflexivity.
Defined.

(** C9: [log_utterance] on an object whose [log_queue] is still [None]
    (no [start_logging] has run: nothing else sets the field, and nothing
    resets it) is one step of the driver that changes nothing: no record
    is queued, no file or thread is touched, no exception is raised, and
    the driver goes on with the rest of its program in the same state.
    The same holds of the call made from sequential code, which does not
    even read the clock. *)
Theorem log_utterance_before_start (speaker text : string) (now : struct_time)
    (s : logger) (rest : list op) (r : option exn) (w : world) :
  log_queue s = None ->
  driver_step {| pending := MemoLLM.log_utterance speaker text now ++ rest;
                 raised := r; obj := s |}
  = Some {| pending := rest; raised := r; obj := s |}
  /\ (logging w = s -> MemoLLM.call_log_utterance speaker text w = (Return tt, w)).
Proof.
  intros Hq. split.
  - unfold driver_step. simpl. now rewrite Hq.
  - intros <-. unfold MemoLLM.call_log_utterance. now rewrite Hq.
Qed.

Lemma log_utterance_before_start_witness :
  driver_step (boot (MemoLLM.log_utterance "Memo" "Hallo" sample_time
                     ++ MemoLLM.start_logging "s1" later_time) ∅)
  = Some (boot (MemoLLM.start_logging "s1" later_time) ∅).
Proof.
  exact (proj1 (log_utterance_before_start "Memo" "Hallo" sample_time (fresh ∅)
                 (MemoLLM.start_logging "s1" later_time) None
                 {| trace := []; recognizer := fun _ => inl KeyboardInterrupt; asked := 0;
                    completer := fun _ => inl KeyboardInterrupt; completed := 0;
                    clock := fun _ => sample_time; ticks := 0; logging := fresh ∅ |}
                 eq_refl)).
Defined.

(** ** The retry loop of the ask primitives *)

Lemma ask_unfold (p : primitive) (question : string) (n : Z) :
  ask p question n = while_attempts (Z.to_nat n) (one_attempt p question) 0 n.
Proof. destruct p; reflexivity. Qed.

Lemma say_emits (me : ConversationDemo.self) (text : string) (animated : bool) (w : world) :
  ConversationDemo.say me text animated w = (Return tt, emit (say_event me text animated) w).
Proof.
  unfold ConversationDemo.say, say_event.
  destruct (ConversationDemo.device me); reflexivity.
Qed.

Lemma attempt_reply (p : primitive) (question : string) (r : reply) (w : world) :
  recognizer w (asked w) = inr r ->
  one_attempt p question w = (Return (answer_of p r), after p question r w).
Proof.
  intros H. destruct p as [me|me context ti te|me|me speed]; simpl.
  - unfold ConversationDemo.ask_yesno_attempt, bind. rewrite say_emits.
    unfold dialogflow_request. simpl. rewrite H. reflexivity.
  - unfold ConversationDemo.ask_entity_attempt, bind. rewrite say_emits.
    unfold dialogflow_request. simpl. rewrite H. reflexivity.
  - unfold ConversationDemo.ask_open_attempt, bind. rewrite say_emits.
    unfold dialogflow_request. simpl. rewrite H. simpl.
    destruct (truthy (query_text r)); reflexivity.
  - unfold MemoLLM.listen_attempt, bind, MemoLLM.say, send.
    unfold dialogflow_request. simpl. rewrite H.
    destruct (truthy (query_text r)); reflexivity.
Qed.

Lemma intent_requests_app (tr1 tr2 : list event) :
  intent_requests (tr1 ++ tr2) = intent_requests tr1 ++ intent_requests tr2.
Proof. unfold intent_requests. apply filter_app. Qed.

Lemma after_facts (p : primitive) (question : string) (r : reply) (w : world) :
  recognizer (after p question r w) = recognizer w
  /\ asked (after p question r w) = S (asked w)
  /\ intent_requests (trace (after p question r w))
     = intent_requests (trace w) ++ [request_of p].
Proof.
  destruct p as [me|me context ti te|me|me speed]; simpl;
    (split; [reflexivity|split; [reflexivity|]]);
    rewrite ?intent_requests_app; try (unfold say_event;
      destruct (ConversationDemo.device me)); simpl;
    rewrite <- ?app_assoc; simpl; rewrite ?app_nil_r; reflexivity.
Qed.

Lemma no_match_no_answer (p : primitive) (r : reply) :
  carries_match p r = false -> answer_of p r = None.
Proof.
  destruct p as [me|me context ti te|me|me speed]; simpl; unfold intent_has.
  - unfold ConversationDemo.yesno_of. destruct (intent r) as [name|]; [|reflexivity].
    intros H. apply orb_false_iff in H as [H H3]. apply orb_false_iff in H as [H1 H2].
    rewrite H1, H2, H3. now destruct (truthy name).
  - unfold ConversationDemo.entity_of. destruct (intent r) as [name|]; [|reflexivity].
    intros ->. now rewrite andb_false_r.
  - now intros ->.
  - now intros ->.
Qed.

(** The loop from [attempts] on, when every reply still to come is a miss. *)
Lemma while_attempts_all_miss (p : primitive) (question : string) (max_attempts : Z) :
  forall (fuel : nat) (attempts : Z) (w : world),
    fuel = Z.to_nat (max_attempts - attempts) ->
    (forall k, asked w <= k -> exists r, recognizer w k = inr r /\ answer_of p r = None) ->
    exists w',
      while_attempts fuel (one_attempt p question) attempts max_attempts w = (Return None, w')
      /\ asked w' = asked w + fuel
      /\ intent_requests (trace w')
         = intent_requests (trace w) ++ repeat (request_of p) fuel.
Proof.
  induction fuel as [|fuel IH]; intros attempts w Hfuel Hmiss.
  - exists w. cbn [while_attempts].
    destruct (Z.ltb_spec attempts max_attempts) as [Hlt|Hge]; [lia|].
    split; [reflexivity|]. split; [lia|]. now rewrite app_nil_r.
  - cbn [while_attempts].
    destruct (Z.ltb_spec attempts max_attempts) as [Hlt|Hge]; [|lia].
    destruct (Hmiss (asked w) (le_n _)) as (r & Hr & Hnone).
    unfold bind at 1. rewrite (attempt_reply p question r w Hr), Hnone.
    destruct (after_facts p question r w) as (Hrec & Hasked & Hreq).
    destruct (IH (attempts + 1)%Z (after p question r w)) as (w' & Hrun & Ha & Ht).
    + lia.
    + intros k Hk. rewrite Hrec. apply Hmiss. lia.
    + exists w'. split; [exact Hrun|]. split; [lia|].
      rewrite Ht, Hreq, <- app_assoc. reflexivity.
Qed.

(** C3: when no reply still to come carries what the primitive listens for
    (a matching intent for [ask_yesno] and [ask_entity], transcript text
    for [ask_open] and [listen]), the primitive called with
    [max_attempts = n] returns [None], raises nothing, and has sent exactly
    [n] recognition requests (none for [n <= 0]), each the same request
    built anew for its attempt. *)
Theorem ask_exhausts_attempts (p : primitive) (question : string) (n : Z) (w : world) :
  (forall k, asked w <= k -> exists r, recognizer w k = inr r /\ carries_match p r = false) ->
  exists w',
    ask p question n w = (Return None, w')
    /\ intent_requests (trace w')
       = intent_requests (trace w) ++ repeat (request_of p) (Z.to_nat n)
    /\ asked w' = asked w + Z.to_nat n
    /\ ((0 <= n)%Z ->
        Z.of_nat (length (intent_requests (trace w')))
        = (Z.of_nat (length (intent_requests (trace w))) + n)%Z).
Proof.
  intros Hmiss. rewrite ask_unfold.
  destruct (while_attempts_all_miss p question n (Z.to_nat n) 0 w) as (w' & Hrun & Ha & Ht).
  - f_equal. lia.
  - intros k Hk. destruct (Hmiss k Hk) as (r & Hr & Hno).
    exists r. split; [exact Hr | now apply no_match_no_answer].
  - exists w'. split; [exact Hrun|]. split; [exact Ht|]. split; [exact Ha|].
    intros Hn. rewrite Ht, length_app, repeat_length. lia.
Qed.

Lemma ask_exhausts_attempts_witness :
  exists w',
    ask (AskYesno sample_demo) "Hou je van dieren?" 3
      (quiet_world (reply_with (Some "Default Fallback Intent") "misschien"))
    = (Return None, w')
    /\ intent_requests (trace w')
       = repeat (IntentRequest 4711 [("answer_yesno", 1%Z)]) 3.
Proof.
  destruct (ask_exhausts_attempts (AskYesno sample_demo) "Hou je van dieren?" 3
              (quiet_world (reply_with (Some "Default Fallback Intent") "misschien")))
    as (w' & H1 & H2 & _).
  - intros k _. eexists. split; [reflexivity | vm_compute; reflexivity].
  - exists w'. split; [exact H1 | exact H2].
Defined.

Lemma while_attempts_step {A} (fuel : nat) (body : M (option A)) (attempts max_attempts : Z)
    (w w1 : world) (r : option A) :
  (attempts < max_attempts)%Z -> body w = (Return r, w1) ->
  while_attempts (S fuel) body attempts max_attempts w
  = match r with
    | Some v => (Return (Some v), w1)
    | None => while_attempts fuel body (attempts + 1) max_attempts w1
    end.
Proof.
  intros Hlt Hbody. cbn [while_attempts].
  destruct (Z.ltb_spec attempts max_attempts) as [_|Hge]; [|lia].
  unfold bind at 1. rewrite Hbody. now destruct r.
Qed.

Lemma ask_first_reply (p : primitive) (question : string) (n : Z) (w : world) (r : reply) :
  (1 <= n)%Z -> recognizer w (asked w) = inr r ->
  ask p question n w
  = match answer_of p r with
    | Some v => (Return (Some v), after p question r w)
    | None =>
        while_attempts (Z.to_nat n - 1) (one_attempt p question) 1 n (after p question r w)
    end.
Proof.
  intros Hn Hr. rewrite ask_unfold.
  replace (Z.to_nat n) with (S (Z.to_nat n - 1)) at 1 by lia.
  rewrite (while_attempts_step _ _ _ _ w (after p question r w) (answer_of p r));
    [reflexivity | lia | now apply attempt_reply].
Qed.

Lemma yesno_match_answers (me : ConversationDemo.self) (r : reply) :
  carries_match (AskYesno me) r = true ->
  exists v, answer_of (AskYesno me) r = Some v.
Proof.
  simpl. unfold intent_has, ConversationDemo.yesno_of.
  destruct (intent r) as [name|]; [|discriminate].
  destruct name as [|c name]; [discriminate|]. cbn [truthy].
  destruct (str_in "yesno_yes" (String c name)); [now eexists|].
  destruct (str_in "yesno_no" (String c name)); [now eexists|].
  destruct (str_in "yesno_dontknow" (String c name)); [now eexists | discriminate].
Qed.

(** C4, as stated, fails on two counts.  For [ask_entity] a reply that
    carries the target intent but no parameters is a miss: with
    [max_attempts = 2] two requests go out and the result is [None].  And
    with [max_attempts = 1] a success on the first attempt takes one
    request, which is not fewer than [n]. *)
Lemma ask_first_match_counterexample :
  (carries_match (AskEntity sample_demo "animals" "animals" "animals")
     (reply_with (Some "animals") "een hond") = true
   /\ fst (ask (AskEntity sample_demo "animals" "animals" "animals")
             "Wat is jouw lievelingsdier?" 2
             (quiet_world (reply_with (Some "animals") "een hond")))
      = Return None
   /\ length (intent_requests (trace (snd
        (ask (AskEntity sample_demo "animals" "animals" "animals")
           "Wat is jouw lievelingsdier?" 2
           (quiet_world (reply_with (Some "animals") "een hond")))))) = 2)
  /\ (fst (ask (AskYesno sample_demo) "Hou je van dieren?" 1
             (quiet_world (reply_with (Some "yesno_yes") "ja")))
      = Return (Some "yes")
      /\ length (intent_requests (trace (snd
           (ask (AskYesno sample_demo) "Hou je van dieren?" 1
              (quiet_world (reply_with (Some "yesno_yes") "ja")))))) = 1
      /\ (1 <? 1)%Z = false).
Proof. repeat split; vm_compute; reflexivity. Qed.

(** C4 (amended): when [max_attempts >= 1] and the first reply is a
    success for the primitive (it makes the loop body return a value: for
    [ask_yesno] an intent name with one of the three yes/no tags, for
    [ask_entity] an intent name with the target intent and parameters that
    hold the target entity, for [ask_open] and [listen] a transcript that
    is not empty), the primitive returns that value after this single
    recognition request, so that at most [n] requests go out.  For
    [ask_yesno] every reply with a matching intent is a success; in
    particular a first reply with intent ["yesno_no"] makes it return
    ["no"] after exactly one request. *)
Theorem ask_stops_at_first_success (p : primitive) (question : string) (n : Z)
    (w : world) (r : reply) :
  (1 <= n)%Z -> recognizer w (asked w) = inr r ->
  (forall v, answer_of p r = Some v ->
     ask p question n w = (Return (Some v), after p question r w))
  /\ intent_requests (trace (after p question r w))
     = intent_requests (trace w) ++ [request_of p]
  /\ (forall me, carries_match (AskYesno me) r = true ->
        exists v, ask (AskYesno me) question n w
                  = (Return (Some v), after (AskYesno me) question r w))
  /\ (forall me, intent r = Some "yesno_no" ->
        ask (AskYesno me) question n w
        = (Return (Some "no"), after (AskYesno me) question r w)).
Proof.
  intros Hn Hr.
  split; [intros v Hv; now rewrite (ask_first_reply p question n w r Hn Hr), Hv|].
  split; [apply after_facts|].
  split.
  - intros me Hm. destruct (yesno_match_answers me r Hm) as [v Hv].
    exists v. now rewrite (ask_first_reply _ question n w r Hn Hr), Hv.
  - intros me Hi. rewrite (ask_first_reply _ question n w r Hn Hr).
    simpl. unfold ConversationDemo.yesno_of. rewrite Hi. reflexivity.
Qed.

Lemma ask_stops_at_first_success_witness :
  ask (AskYesno sample_demo) "Hou je van dieren?" 2
    (quiet_world (reply_with (Some "yesno_no") "nee"))
  = (Return (Some "no"),
     after (AskYesno sample_demo) "Hou je van dieren?" (reply_with (Some "yesno_no") "nee")
       (quiet_world (reply_with (Some "yesno_no") "nee")))
  /\ intent_requests (trace
       (after (AskYesno sample_demo) "Hou je van dieren?" (reply_with (Some "yesno_no") "nee")
          (quiet_world (reply_with (Some "yesno_no") "nee"))))
     = [IntentRequest 4711 [("answer_yesno", 1%Z)]].
Proof.
  destruct (ask_stops_at_first_success (AskYesno sample_demo) "Hou je van dieren?" 2
              (quiet_world (reply_with (Some "yesno_no") "nee"))
              (reply_with (Some "yesno_no") "nee")) as (_ & H2 & _ & H4).
  - lia.
  - reflexivity.
  - split; [exact (H4 sample_demo eq_refl) | exact H2].
Defined.



(** ** Playing a clip *)

(** C7, as stated, fails on two counts.  A clip of 32-bit float samples
    has a sample width of 4 bytes, and [play_audio] fails on it with the
    [wave.Error] of [wave.open], which reads PCM data only, and not with
    the [ValueError] of the width test.  And on a [Desktop] a 16-bit clip
    passes the test but no request is made: the device has no attribute
    [speaker]. *)
Lemma play_audio_request_counterexample :
  (ConversationDemo.sample_width_of float32_clip = 4%Z
   /\ ConversationDemo.play_audio pepper_demo (ConversationDemo.wave_open float32_clip)
        (quiet_world (reply_with None EmptyString))
      = (Raise (WaveError "unknown format: 3"), quiet_world (reply_with None EmptyString)))
  /\ (ConversationDemo.sample_width_of pcm16_clip = 2%Z
      /\ ConversationDemo.play_audio sample_demo (ConversationDemo.wave_open pcm16_clip)
           (quiet_world (reply_with None EmptyString))
         = (Raise (AttributeError "'Desktop' object has no attribute 'speaker'"),
            quiet_world (reply_with None EmptyString))).
Proof. repeat split. Qed.

(** C7 (amended): when [wave.open] raises, [play_audio] ends with that
    exception; on a clip that [wave.open] reads and whose sample width is
    not 2, it raises the [ValueError] whose message names that width; in
    both cases the world is as before: no request has gone to the speaker
    (or to anything else).  On a clip of sample width 2 and a device that
    has a speaker (a Pepper or a Nao) it sends the one speaker request,
    with all frames and the clip's frame rate, and returns. *)
Theorem play_audio_checks_sample_width (me : ConversationDemo.self) (w : world) :
  (forall e, ConversationDemo.play_audio me (inl e) w = (Raise e, w))
  /\ (forall wf, ConversationDemo.sampwidth wf <> 2%Z ->
        ConversationDemo.play_audio me (inr wf) w
        = (Raise (ValueError ("WAV file is not 16-bit audio. Sample width = "
                              +:+ str_of_Z (ConversationDemo.sampwidth wf) +:+ " bytes.")),
           w))
  /\ (forall wf, ConversationDemo.sampwidth wf = 2%Z ->
        ConversationDemo.device me = ConversationDemo.Pepper
        \/ ConversationDemo.device me = ConversationDemo.Nao ->
        ConversationDemo.play_audio me (inr wf) w
        = (Return tt,
           emit (SpeakerRequest
                   (ConversationDemo.readframes wf (ConversationDemo.getnframes wf))
                   (ConversationDemo.framerate wf)) w)).
Proof.
  split; [reflexivity|]. split; intros wf H.
  - unfold ConversationDemo.play_audio.
    destruct (Z.eqb_spec (ConversationDemo.sampwidth wf) 2) as [E|_]; [contradiction|].
    reflexivity.
  - intros Hdev. unfold ConversationDemo.play_audio, ConversationDemo.speaker.
    rewrite H. now destruct Hdev as [-> | ->].
Qed.

Lemma play_audio_checks_sample_width_witness :
  ConversationDemo.play_audio pepper_demo (ConversationDemo.wave_open pcm24_clip)
    (quiet_world (reply_with None EmptyString))
  = (Raise (ValueError "WAV file is not 16-bit audio. Sample width = 3 bytes."),
     quiet_world (reply_with None EmptyString))
  /\ ConversationDemo.play_audio pepper_demo (ConversationDemo.wave_open pcm16_clip)
       (quiet_world (reply_with None EmptyString))
     = (Return tt,
        emit (SpeakerRequest "abcdefgh" 44100) (quiet_world (reply_with None EmptyString))).
Proof.
  destruct (play_audio_checks_sample_width pepper_demo
              (quiet_world (reply_with None EmptyString))) as (_ & H2 & H3).
  split.
  - refine (H2 {| ConversationDemo.sampwidth := 3; ConversationDemo.framerate := 44100;
                  ConversationDemo.frames := ["abc"; "def"] |} _).
    discriminate.
  - exact (H3 {| ConversationDemo.sampwidth := 2; ConversationDemo.framerate := 44100;
                 ConversationDemo.frames := ["abcd"; "efgh"] |} eq_refl (or_introl eq_refl)).
Defined.

(** ** [MemoLLM.run] *)


(** C6: every call of [run] ends with the [TypeError] of the call
    [self.start_logging()], which lacks the argument [log_id]; the handler
    of [run] catches [KeyboardInterrupt] only, so the exception leaves
    [run]; and the world is as before the call: no request has gone to the
    language model, to the recognizer or to the speech device, and the
    logging state is untouched. *)
Theorem run_raises_type_error (fuel : nat) (me : MemoLLM.self) (speed : Z) (w : world) :
  MemoLLM.run fuel me speed w = (Raise start_logging_arity_error, w)
  /\ start_logging_arity_error <> KeyboardInterrupt.
Proof. split; [reflexivity | discriminate]. Qed.

(** C5 on the code: with a language model that answers ["Stop"], [run]
    raises the [TypeError] before the loop and nothing is spoken; the same
    body started with an argument for [start_logging] leaves the loop
    after the one completion request, sends no recognition request, speaks
    the closing utterance and stops logging. *)
Theorem run_misses_stop_response :
  MemoLLM.run 3 sample_memo 75 (chat_world "Stop")
  = (Raise start_logging_arity_error, chat_world "Stop")
  /\ fst (MemoLLM.run_from ["s1"] 3 sample_memo 75 (chat_world "Stop")) = Return tt
  /\ intent_requests
       (trace (snd (MemoLLM.run_from ["s1"] 3 sample_memo 75 (chat_world "Stop")))) = []
  /\ last (trace (snd (MemoLLM.run_from ["s1"] 3 sample_memo 75 (chat_world "Stop"))))
     = Some (TtsRequest (" \rspd=75\ " +:+ MemoLLM.closing) (Some "Dutch") true)
  /\ threads (logging (snd (MemoLLM.run_from ["s1"] 3 sample_memo 75 (chat_world "Stop"))))
     = [WExited].
Proof. repeat split; vm_compute; reflexivity. Qed.

(** ** Further properties *)

(** The loop from [attempts] on, when the next [j] replies are misses and
    the one after them is a success. *)
Lemma while_attempts_until (p : primitive) (question : string) (max_attempts : Z)
    (r : reply) (v : string) :
  answer_of p r = Some v ->
  forall (j fuel : nat) (attempts : Z) (w : world),
    (attempts + Z.of_nat j < max_attempts)%Z ->
    fuel = Z.to_nat (max_attempts - attempts) ->
    (forall k, asked w <= k < asked w + j ->
       exists r', recognizer w k = inr r' /\ answer_of p r' = None) ->
    recognizer w (asked w + j) = inr r ->
    exists w',
      while_attempts fuel (one_attempt p question) attempts max_attempts w
      = (Return (Some v), w')
      /\ intent_requests (trace w')
         = intent_requests (trace w) ++ repeat (request_of p) (S j).
Proof.
  intros Hv. induction j as [|j IH]; intros fuel attempts w Hlt Hfuel Hmiss Hr.
  - rewrite Nat.add_0_r in Hr.
    destruct fuel as [|fuel]; [lia|].
    rewrite (while_attempts_step _ _ _ _ w (after p question r w) (answer_of p r));
      [|lia|now apply attempt_reply].
    rewrite Hv. eexists. split; [reflexivity|]. apply after_facts.
  - destruct (Hmiss (asked w)) as (r0 & Hr0 & Hnone); [lia|].
    destruct fuel as [|fuel]; [lia|].
    rewrite (while_attempts_step _ _ _ _ w (after p question r0 w) (answer_of p r0));
      [|lia|now apply attempt_reply].
    rewrite Hnone.
    destruct (after_facts p question r0 w) as (Hrec & Hasked & Hreq).
    destruct (IH fuel (attempts + 1)%Z (after p question r0 w)) as (w' & Hrun & Ht).
    + lia.
    + lia.
    + intros k Hk. rewrite Hrec. apply Hmiss. lia.
    + rewrite Hrec, Hasked. rewrite <- Hr. f_equal. lia.
    + exists w'. split; [exact Hrun|].
      rewrite Ht, Hreq, <- app_assoc. reflexivity.
Qed.

(** An ask primitive returns at the first success: when the first [j]
    replies are misses, the next one is a success with value [v], and
    [j < max_attempts], the call returns [v] after exactly [j + 1]
    recognition requests. *)
Theorem ask_returns_first_success (p : primitive) (question : string) (n : Z) (w : world)
    (j : nat) (r : reply) (v : string) :
  (Z.of_nat j < n)%Z ->
  (forall k, asked w <= k < asked w + j ->
     exists r', recognizer w k = inr r' /\ answer_of p r' = None) ->
  recognizer w (asked w + j) = inr r ->
  answer_of p r = Some v ->
  exists w',
    ask p question n w = (Return (Some v), w')
    /\ intent_requests (trace w')
       = intent_requests (trace w) ++ repeat (request_of p) (S j).
Proof.
  intros Hj Hmiss Hr Hv. rewrite ask_unfold.
  apply (while_attempts_until p question n r v Hv j); try assumption; try lia.
Qed.

Lemma ask_returns_first_success_witness :
  exists w',
    ask (AskOpen sample_demo) "Wat vind je daar zo leuk aan?" 3
      (second_try_world (reply_with None EmptyString) (reply_with None "ze zijn lief"))
    = (Return (Some "ze zijn lief"), w')
    /\ intent_requests (trace w') = repeat (IntentRequest 4711 []) 2.
Proof.
  destruct (ask_returns_first_success (AskOpen sample_demo) "Wat vind je daar zo leuk aan?" 3
              (second_try_world (reply_with None EmptyString) (reply_with None "ze zijn lief"))
              1 (reply_with None "ze zijn lief") "ze zijn lief") as (w' & H1 & H2).
  - lia.
  - intros k Hk. exists (reply_with None EmptyString).
    assert (k = 0) as -> by (simpl in Hk; lia). split; reflexivity.
  - reflexivity.
  - reflexivity.
  - exists w'. split; [exact H1 | exact H2].
Defined.

(** Whatever the driver's program, the two threads cannot run forever: a
    schedule is never longer than the effort the program starts with. *)
Theorem every_schedule_is_finite (prog : list op) (fs : gmap string string)
    (sched : list tid) (c : config) :
  run_schedule sched (boot prog fs) = Some c ->
  length sched <= effort (boot prog fs).
Proof. intros H. apply run_schedule_effort in H. lia. Qed.

Lemma every_schedule_is_finite_witness :
  length sample_schedule <= effort (session_boot ∅ "s1" sample_time sample_utterances).
Proof.
  apply (every_schedule_is_finite (session "s1" sample_time sample_utterances) ∅
           sample_schedule sample_final).
  vm_compute; reflexivity.
Defined.



(** ** The scripted conversation of [ConversationDemo.run] *)

Lemma gpt_requests_app (tr1 tr2 : list event) :
  gpt_requests (tr1 ++ tr2) = gpt_requests tr1 ++ gpt_requests tr2.
Proof. unfold gpt_requests. apply filter_app. Qed.

Lemma same_services_refl (w : world) : same_services w w.
Proof. now split. Qed.

Lemma same_services_trans (w1 w2 w3 : world) :
  same_services w1 w2 -> same_services w2 w3 -> same_services w1 w3.
Proof. intros [H1 H2] [H3 H4]. split; congruence. Qed.

Lemma replying_forward (w w' : world) : same_services w w' -> replying w -> replying w'.
Proof.
  intros [H1 H2] [Hr Hc]. split; intros k; [rewrite H1 | rewrite H2]; auto.
Qed.

Lemma grows_refl (w : world) : grows w w 0 0.
Proof. split; [apply same_services_refl | split; lia]. Qed.

Lemma grows_trans (w1 w2 w3 : world) (a g a' g' : nat) :
  grows w1 w2 a g -> grows w2 w3 a' g' -> grows w1 w3 (a + a') (g + g').
Proof.
  intros (Hs & Ha & Hg) (Hs' & Ha' & Hg').
  split; [now apply (same_services_trans w1 w2) | split; lia].
Qed.

Lemma grows_emit (e : event) (w : world) :
  is_intent_request e = false -> is_gpt_request e = false -> grows w (emit e w) 0 0.
Proof.
  intros Hi Hg. split; [split; reflexivity|]. simpl.
  rewrite intent_requests_app, gpt_requests_app, !length_app.
  unfold intent_requests, gpt_requests. simpl.
  rewrite !filter_cons, Hi, Hg. simpl. split; lia.
Qed.

Lemma say_event_plain (me : ConversationDemo.self) (text : string) (animated : bool) :
  is_intent_request (say_event me text animated) = false
  /\ is_gpt_request (say_event me text animated) = false.
Proof. unfold say_event. destruct (ConversationDemo.device me); now split. Qed.

(** *** Computations that end well *)

(** *** Computations that stay within their requests *)

Lemma after_more (p : primitive) (question : string) (r : reply) (w : world) :
  completer (after p question r w) = completer w
  /\ gpt_requests (trace (after p question r w)) = gpt_requests (trace w).
Proof.
  destruct p as [me|me context ti te|me|me speed]; simpl;
    (split; [reflexivity|]);
    rewrite ?gpt_requests_app; try (unfold say_event;
      destruct (ConversationDemo.device me)); simpl;
    rewrite ?app_nil_r; reflexivity.
Qed.

(** The loop from [attempts] on, when the recognizer answers every
    request: it returns, after [m] requests; [None] only after all the
    attempts, and a value only as the answer of one of the replies. *)
Lemma while_attempts_replies (p : primitive) (question : string) (max_attempts : Z) :
  forall (fuel : nat) (attempts : Z) (w : world),
    fuel = Z.to_nat (max_attempts - attempts) ->
    (forall k, asked w <= k -> exists r, recognizer w k = inr r) ->
    exists v w' m,
      while_attempts fuel (one_attempt p question) attempts max_attempts w = (Return v, w')
      /\ m <= fuel /\ (v = None -> m = fuel)
      /\ same_services w w' /\ asked w' = asked w + m
      /\ intent_requests (trace w')
         = intent_requests (trace w) ++ repeat (request_of p) m
      /\ gpt_requests (trace w') = gpt_requests (trace w)
      /\ (forall x, v = Some x ->
            exists k r, asked w <= k /\ recognizer w k = inr r /\ answer_of p r = Some x).
Proof.
  induction fuel as [|fuel IH]; intros attempts w Hfuel Hrep.
  - exists None, w, 0. cbn [while_attempts].
    destruct (Z.ltb_spec attempts max_attempts) as [Hlt|Hge]; [lia|].
    repeat split; try reflexivity; try lia.
    + now rewrite app_nil_r.
    + discriminate.
  - destruct (Hrep (asked w) (le_n _)) as (r & Hr).
    rewrite (while_attempts_step _ _ _ _ w (after p question r w) (answer_of p r));
      [|lia|now apply attempt_reply].
    destruct (after_facts p question r w) as (Hrec & Hasked & Hreq).
    destruct (after_more p question r w) as (Hcom & Hgpt).
    destruct (answer_of p r) as [x|] eqn:Hans.
    + exists (Some x), (after p question r w), 1.
      repeat split; try assumption; try lia; try discriminate.
      intros y Hy. injection Hy as <-. exists (asked w), r. now repeat split.
    + destruct (IH (attempts + 1)%Z (after p question r w))
        as (v & w' & m & Hrun & Hm & Hnone & [Hs1 Hs2] & Ha & Ht & Hg & Hv).
      * lia.
      * intros k Hk. rewrite Hrec. apply Hrep. lia.
      * exists v, w', (S m). split; [exact Hrun|].
        split; [lia|]. split; [intros E; specialize (Hnone E); lia|].
        split; [split; congruence|]. split; [lia|].
        split; [rewrite Ht, Hreq, <- app_assoc; reflexivity|].
        split; [congruence|].
        intros x Hx. destruct (Hv x Hx) as (k & r' & Hk & Hr' & Hx').
        exists k, r'. split; [lia|]. split; [congruence | exact Hx'].
Qed.

Lemma within_ret {A} (a : A) : within 0 0 (ret a).
Proof.
  intros w _. exists a, w, 0, 0. split; [reflexivity|].
  split; [lia|]. split; [lia | apply grows_refl].
Qed.

Lemma within_weaken {A} (a g a' g' : nat) (c : M A) :
  a <= a' -> g <= g' -> within a g c -> within a' g' c.
Proof.
  intros Ha Hg Hc w Hw. destruct (Hc w Hw) as (v & w' & a0 & g0 & H & Ha0 & Hg0 & Hgr).
  exists v, w', a0, g0. repeat split; try assumption; try lia; apply Hgr.
Qed.

Lemma within_bind {A B} (a1 g1 a2 g2 : nat) (c : M A) (k : A -> M B) :
  within a1 g1 c -> (forall x, within a2 g2 (k x)) -> within (a1 + a2) (g1 + g2) (bind c k).
Proof.
  intros Hc Hk w Hw. destruct (Hc w Hw) as (v & w1 & a & g & H & Ha & Hg & Hgr).
  assert (Hw1 : replying w1) by (apply (replying_forward w); [apply Hgr | exact Hw]).
  destruct (Hk v w1 Hw1) as (v' & w2 & a' & g' & H' & Ha' & Hg' & Hgr').
  exists v', w2, (a + a'), (g + g'). unfold bind. rewrite H, H'.
  split; [reflexivity|]. split; [lia|]. split; [lia|].
  now apply (grows_trans w w1 w2).
Qed.

Lemma within_say (me : ConversationDemo.self) (text : string) (animated : bool) :
  within 0 0 (ConversationDemo.say me text animated).
Proof.
  intros w _. exists tt, (emit (say_event me text animated) w), 0, 0.
  rewrite say_emits. split; [reflexivity|]. split; [lia|]. split; [lia|].
  destruct (say_event_plain me text animated). now apply grows_emit.
Qed.

Lemma within_gpt (prompt : string) : within 0 1 (gpt_request prompt).
Proof.
  intros w [_ Hc]. destruct (Hc (completed w)) as [s Hs].
  exists s, (next_completion (emit (GptRequest prompt) w)), 0, 1.
  unfold gpt_request. rewrite Hs. split; [reflexivity|]. split; [lia|]. split; [lia|].
  split; [split; reflexivity|]. simpl.
  rewrite intent_requests_app, gpt_requests_app, !length_app. simpl. split; lia.
Qed.

Lemma within_ask (p : primitive) (question : string) (n : Z) :
  within (Z.to_nat n) 0 (ask p question n).
Proof.
  intros w [Hr _]. rewrite ask_unfold.
  destruct (while_attempts_replies p question n (Z.to_nat n) 0 w)
    as (v & w' & m & Hrun & Hm & _ & Hs & _ & Ht & Hg & _).
  - f_equal. lia.
  - intros k _. apply Hr.
  - exists v, w', m, 0. split; [exact Hrun|]. split; [lia|]. split; [lia|].
    split; [exact Hs|]. rewrite Ht, Hg, length_app, repeat_length. split; lia.
Qed.

Lemma within_if {A} (a g : nat) (b : bool) (c1 c2 : M A) :
  within a g c1 -> within a g c2 -> within a g (if b then c1 else c2).
Proof. now destruct b. Qed.

Lemma within_run_followup (me : ConversationDemo.self) (dier waarom : string) :
  within 2 2 (ConversationDemo.run_followup me dier waarom).
Proof.
  unfold ConversationDemo.run_followup, ConversationDemo.llm_request.
  apply (within_bind 0 1 2 1); [apply within_gpt|]. intros vervolg_vraag.
  apply within_if; [|apply (within_weaken 0 0); [lia | lia | apply within_say]].
  apply (within_bind 2 0 0 1); [apply (within_ask (AskOpen me) _ 2)|]. intros waarom2.
  apply within_if; [|apply (within_weaken 0 0); [lia | lia | apply within_ret]].
  apply (within_bind 0 1 0 0); [apply within_gpt | intros reaction; apply within_say].
Qed.

Lemma within_run_animals (me : ConversationDemo.self) :
  within 6 2 (ConversationDemo.run_animals me).
Proof.
  unfold ConversationDemo.run_animals.
  apply (within_bind 2 0 4 2);
    [apply (within_ask (AskEntity me "animals" "animals" "animals") _ 2)|].
  intros lievelingsdier.
  apply within_if; [|apply (within_weaken 0 0); [lia | lia | apply within_say]].
  apply (within_bind 0 0 4 2); [apply within_say|]. intros _.
  apply (within_bind 2 0 2 2); [apply (within_ask (AskOpen me) _ 2)|]. intros waarom.
  apply within_if; [|apply (within_weaken 0 0); [lia | lia | apply within_say]].
  apply within_run_followup.
Qed.

Lemma within_run (me : ConversationDemo.self) : within 8 2 (ConversationDemo.run me).
Proof.
  unfold ConversationDemo.run.
  apply (within_bind 0 0 8 2); [apply within_say|]. intros _.
  apply (within_bind 2 0 6 2); [apply (within_ask (AskYesno me) _ 2)|]. intros wil_kletsen.
  apply (within_bind 6 2 0 0); [|intros _; apply within_say].
  apply within_if; [|apply (within_weaken 0 0); [lia | lia | apply within_say]].
  apply within_run_animals.
Qed.

(** What [c ;; say text] has sent last when it returns. *)
Lemma then_say_last {A} (c : M A) (me : ConversationDemo.self) (text : string)
    (animated : bool) (w w' : world) (v : unit) :
  bind c (fun _ => ConversationDemo.say me text animated) w = (Return v, w') ->
  exists pre, trace w' = pre ++ [say_event me text animated].
Proof.
  unfold bind. destruct (c w) as [[a|e|] w1]; try discriminate.
  rewrite say_emits. intros H. injection H as _ <-. now exists (trace w1).
Qed.

Lemma ask_two_misses (p : primitive) (question : string) (w : world) (r1 r2 : reply) :
  recognizer w (asked w) = inr r1 -> answer_of p r1 = None ->
  recognizer w (S (asked w)) = inr r2 -> answer_of p r2 = None ->
  ask p question 2 w = (Return None, after p question r2 (after p question r1 w)).
Proof.
  intros H1 N1 H2 N2.
  rewrite (ask_first_reply p question 2 w r1); [|lia|exact H1]. rewrite N1.
  change (Z.to_nat 2 - 1) with 1.
  destruct (after_facts p question r1 w) as (Hrec & Hasked & _).
  rewrite (while_attempts_step _ _ _ _ (after p question r1 w)
             (after p question r2 (after p question r1 w)) (answer_of p r2)).
  - rewrite N2. reflexivity.
  - lia.
  - apply attempt_reply. now rewrite Hrec, Hasked.
Qed.

Lemma run_says_farewell_last (me : ConversationDemo.self) (w w' : world) (v : unit) :
  ConversationDemo.run me w = (Return v, w') ->
  exists pre, trace w' = pre ++ [say_event me ConversationDemo.farewell true].
Proof.
  unfold ConversationDemo.run. unfold bind at 1. rewrite say_emits.
  unfold bind at 1.
  destruct (ConversationDemo.ask_yesno me "Hou je van dieren?" 2
              (emit (say_event me ConversationDemo.greeting true) w))
    as [[wil|e|] w1]; try discriminate.
  apply then_say_last.
Qed.

(** With services that answer, [ConversationDemo.run] returns, after at
    most 8 recognition requests and at most 2 completion requests, and the
    last thing it does is to say the farewell. *)
Theorem run_ends_within_bounds (me : ConversationDemo.self) (w : world) :
  replying w ->
  exists w' a g,
    ConversationDemo.run me w = (Return tt, w')
    /\ a <= 8 /\ g <= 2
    /\ length (intent_requests (trace w')) = length (intent_requests (trace w)) + a
    /\ length (gpt_requests (trace w')) = length (gpt_requests (trace w)) + g
    /\ exists pre, trace w' = pre ++ [say_event me ConversationDemo.farewell true].
Proof.
  intros Hw. destruct (within_run me w Hw) as ([] & w' & a & g & H & Ha & Hg & _ & Hi & Hc).
  exists w', a, g. repeat split; try assumption.
  now apply (run_says_farewell_last me w w' tt).
Qed.

Lemma run_ends_within_bounds_witness :
  exists w' a g,
    ConversationDemo.run sample_demo (quiet_world (reply_with (Some "yesno_yes") "ja"))
    = (Return tt, w')
    /\ a <= 8 /\ g <= 2
    /\ length (intent_requests (trace w')) = a
    /\ length (gpt_requests (trace w')) = g.
Proof.
  destruct (run_ends_within_bounds sample_demo
              (quiet_world (reply_with (Some "yesno_yes") "ja")))
    as (w' & a & g & H & Ha & Hg & Hi & Hc & _).
  - split; intros k; eexists; reflexivity.
  - exists w', a, g. repeat split; assumption.
Defined.

(** When the language model fails on the first completion request, the
    exception leaves [run]: after a yes, a favourite animal and a reason,
    each understood at the first attempt, [run] raises what the service
    raised, and the completion request is the last thing it has done:
    nothing more is said, the farewell neither. *)
Theorem run_completion_failure_propagates (me : ConversationDemo.self) (w : world)
    (r1 r2 r3 : reply) (dier : string) (e : exn) :
  recognizer w (asked w) = inr r1 ->
  ConversationDemo.yesno_of r1 = Some "yes" ->
  recognizer w (S (asked w)) = inr r2 ->
  ConversationDemo.entity_of "animals" "animals" r2 = Some dier -> truthy dier = true ->
  recognizer w (S (S (asked w))) = inr r3 -> truthy (query_text r3) = true ->
  completer w (completed w) = inl e ->
  exists w' pre,
    ConversationDemo.run me w = (Raise e, w')
    /\ trace w'
       = pre ++ [GptRequest (ConversationDemo.followup_prompt dier (query_text r3))].
Proof.
  intros H1 A1 H2 A2 T2 H3 T3 He.
  unfold ConversationDemo.run. unfold bind at 1. rewrite say_emits.
  unfold bind at 1.
  change (ConversationDemo.ask_yesno me "Hou je van dieren?" 2)
    with (ask (AskYesno me) "Hou je van dieren?" 2).
  rewrite (ask_first_reply _ _ 2 _ r1); [|lia|exact H1].
  cbn [answer_of]. rewrite A1. cbn [truthy_opt truthy String.eqb Ascii.eqb Bool.eqb andb].
  unfold bind at 1. unfold ConversationDemo.run_animals. unfold bind at 1.
  change (ConversationDemo.ask_entity me "Wat is jouw lievelingsdier?"
            "animals" "animals" "animals" 2)
    with (ask (AskEntity me "animals" "animals" "animals") "Wat is jouw lievelingsdier?" 2).
  rewrite (ask_first_reply _ _ 2 _ r2); [|lia|exact H2].
  cbn [answer_of]. rewrite A2. cbn [truthy_opt]. rewrite T2.
  unfold bind at 1. rewrite say_emits. unfold bind at 1.
  change (ConversationDemo.ask_open me "Wat vind je daar zo leuk aan?" 2)
    with (ask (AskOpen me) "Wat vind je daar zo leuk aan?" 2).
  rewrite (ask_first_reply _ _ 2 _ r3); [|lia|exact H3].
  cbn [answer_of]. rewrite T3. cbn [truthy_opt]. rewrite T3.
  unfold ConversationDemo.run_followup, ConversationDemo.llm_request.
  unfold bind at 1. unfold gpt_request. cbn [str_of_opt].
  match goal with |- context [completer ?x (completed ?x)] =>
    change (completer x (completed x)) with (completer w (completed w)) end.
  rewrite He. eexists. eexists. split; reflexivity.
Qed.

Lemma say_quiet (me : ConversationDemo.self) (text : string) (animated : bool) (w : world) :
  intent_requests (trace (emit (say_event me text animated) w)) = intent_requests (trace w)
  /\ gpt_requests (trace (emit (say_event me text animated) w)) = gpt_requests (trace w).
Proof.
  simpl. rewrite intent_requests_app, gpt_requests_app.
  unfold say_event. destruct (ConversationDemo.device me); simpl;
    rewrite !app_nil_r; now split.
Qed.

Lemma run_completion_failure_propagates_witness :
  exists w' pre,
    ConversationDemo.run sample_demo
      (scripted_world [reply_with (Some "yesno_yes") "ja"; animal_reply "hond";
                       reply_with None "ze zijn trouw"]
         (reply_with None EmptyString) [inl (ServiceError "quota")])
    = (Raise (ServiceError "quota"), w')
    /\ trace w'
       = pre ++ [GptRequest (ConversationDemo.followup_prompt "hond" "ze zijn trouw")].
Proof.
  apply (run_completion_failure_propagates sample_demo _
           (reply_with (Some "yesno_yes") "ja") (animal_reply "hond")
           (reply_with None "ze zijn trouw") "hond" (ServiceError "quota"));
    vm_compute; reflexivity.
Defined.

(** When no reply to the yes/no question is a yes (it is a no, a
    don't-know or a miss), [run] asks nothing else: it sends at most the 2
    yes/no requests, no other recognition request and no completion
    request, says the line for people who do not like animals and then
    the farewell, and returns. *)
Theorem run_without_yes_asks_nothing_else (me : ConversationDemo.self) (w : world) :
  (forall k, asked w <= k ->
     exists r, recognizer w k = inr r /\ ConversationDemo.yesno_of r <> Some "yes") ->
  exists w' m pre,
    ConversationDemo.run me w = (Return tt, w')
    /\ m <= 2
    /\ intent_requests (trace w')
       = intent_requests (trace w) ++ repeat (request_of (AskYesno me)) m
    /\ gpt_requests (trace w') = gpt_requests (trace w)
    /\ trace w'
       = pre ++ [say_event me "Helemaal prima, dan kletsen we over wat anders" true;
                 say_event me ConversationDemo.farewell true].
Proof.
  intros Hno.
  unfold ConversationDemo.run. unfold bind at 1. rewrite say_emits.
  unfold bind at 1.
  change (ConversationDemo.ask_yesno me "Hou je van dieren?" 2)
    with (ask (AskYesno me) "Hou je van dieren?" 2).
  rewrite ask_unfold.
  destruct (while_attempts_replies (AskYesno me) "Hou je van dieren?" 2 (Z.to_nat 2) 0
              (emit (say_event me ConversationDemo.greeting true) w))
    as (v & w1 & m & Hrun & Hm & _ & _ & _ & Ht & Hg & Hv).
  - reflexivity.
  - intros k Hk. destruct (Hno k Hk) as (r & Hr & _). now exists r.
  - rewrite Hrun.
    assert (Hcond : truthy_opt v
                    && match v with Some s => String.eqb s "yes" | None => false end
                    = false).
    { destruct v as [s|]; [|reflexivity].
      destruct (String.eqb_spec s "yes") as [->|_]; [|apply andb_false_r].
      exfalso. destruct (Hv "yes" eq_refl) as (k & r & Hk & Hr & Hans).
      destruct (Hno k Hk) as (r' & Hr' & Hne).
      simpl in Hr, Hr'. rewrite Hr in Hr'. injection Hr' as <-. now apply Hne. }
    rewrite Hcond. unfold bind at 1. rewrite say_emits. rewrite say_emits.
    exists (emit (say_event me ConversationDemo.farewell true)
              (emit (say_event me "Helemaal prima, dan kletsen we over wat anders" true) w1)),
      m, (trace w1).
    split; [reflexivity|]. split; [exact Hm|].
    destruct (say_quiet me ConversationDemo.greeting true w) as [Gi Gg].
    rewrite Gi in Ht. rewrite Gg in Hg.
    split; [now rewrite !(proj1 (say_quiet _ _ _ _))|].
    split; [now rewrite !(proj2 (say_quiet _ _ _ _))|].
    simpl. now rewrite <- app_assoc.
Qed.

Lemma run_without_yes_asks_nothing_else_witness :
  exists w' m pre,
    ConversationDemo.run sample_demo (quiet_world (reply_with (Some "yesno_dontknow") "tja"))
    = (Return tt, w')
    /\ m <= 2
    /\ intent_requests (trace w') = repeat (IntentRequest 4711 [("answer_yesno", 1%Z)]) m
    /\ gpt_requests (trace w') = []
    /\ trace w'
       = pre ++ [say_event sample_demo "Helemaal prima, dan kletsen we over wat anders" true;
                 say_event sample_demo ConversationDemo.farewell true].
Proof.
  apply (run_without_yes_asks_nothing_else sample_demo
           (quiet_world (reply_with (Some "yesno_dontknow") "tja"))).
  intros k _. eexists. split; [reflexivity | vm_compute; discriminate].
Defined.

(** A follow-up answer that is not understood gets no reply.  After a
    yes, a favourite animal and a reason, each understood at the first
    attempt, and a follow-up question from the language model that is not
    empty: when both attempts to hear the answer to the follow-up give no
    transcript, [run] says nothing about it (this branch has no fallback
    line) and sends no second completion request; after the print of the
    last attempt comes the farewell. *)
Theorem run_unheard_followup_is_passed_over (me : ConversationDemo.self) (w : world)
    (r1 r2 r3 r4 r5 : reply) (dier vraag : string) :
  recognizer w (asked w) = inr r1 ->
  ConversationDemo.yesno_of r1 = Some "yes" ->
  recognizer w (S (asked w)) = inr r2 ->
  ConversationDemo.entity_of "animals" "animals" r2 = Some dier -> truthy dier = true ->
  recognizer w (S (S (asked w))) = inr r3 -> truthy (query_text r3) = true ->
  completer w (completed w) = inr vraag -> truthy vraag = true ->
  recognizer w (S (S (S (asked w)))) = inr r4 -> truthy (query_text r4) = false ->
  recognizer w (S (S (S (S (asked w))))) = inr r5 -> truthy (query_text r5) = false ->
  exists w' pre,
    ConversationDemo.run me w = (Return tt, w')
    /\ trace w'
       = pre ++ [Printed ("The detected intent: " +:+ str_of_opt (intent r5));
                 say_event me ConversationDemo.farewell true]
    /\ gpt_requests (trace w')
       = gpt_requests (trace w)
         ++ [GptRequest (ConversationDemo.followup_prompt dier (query_text r3))]
    /\ intent_requests (trace w')
       = intent_requests (trace w)
         ++ [request_of (AskYesno me);
             request_of (AskEntity me "animals" "animals" "animals");
             request_of (AskOpen me); request_of (AskOpen me); request_of (AskOpen me)].
Proof.
  intros H1 A1 H2 A2 T2 H3 T3 Hc Tc H4 T4 H5 T5.
  unfold ConversationDemo.run. unfold bind at 1. rewrite say_emits.
  unfold bind at 1.
  change (ConversationDemo.ask_yesno me "Hou je van dieren?" 2)
    with (ask (AskYesno me) "Hou je van dieren?" 2).
  rewrite (ask_first_reply _ _ 2 _ r1); [|lia|exact H1].
  cbn [answer_of]. rewrite A1. cbn [truthy_opt truthy String.eqb Ascii.eqb Bool.eqb andb].
  unfold bind at 1. unfold ConversationDemo.run_animals. unfold bind at 1.
  change (ConversationDemo.ask_entity me "Wat is jouw lievelingsdier?"
            "animals" "animals" "animals" 2)
    with (ask (AskEntity me "animals" "animals" "animals") "Wat is jouw lievelingsdier?" 2).
  rewrite (ask_first_reply _ _ 2 _ r2); [|lia|exact H2].
  cbn [answer_of]. rewrite A2. cbn [truthy_opt]. rewrite T2.
  unfold bind at 1. rewrite say_emits. unfold bind at 1.
  change (ConversationDemo.ask_open me "Wat vind je daar zo leuk aan?" 2)
    with (ask (AskOpen me) "Wat vind je daar zo leuk aan?" 2).
  rewrite (ask_first_reply _ _ 2 _ r3); [|lia|exact H3].
  cbn [answer_of]. rewrite T3. cbn [truthy_opt]. rewrite T3.
  unfold ConversationDemo.run_followup, ConversationDemo.llm_request.
  unfold bind at 1. unfold gpt_request. cbn [str_of_opt].
  match goal with |- context [completer ?x (completed ?x)] =>
    change (completer x (completed x)) with (completer w (completed w)) end.
  rewrite Hc, Tc. unfold bind at 1.
  change (ConversationDemo.ask_open me vraag 2) with (ask (AskOpen me) vraag 2).
  rewrite (ask_two_misses (AskOpen me) vraag _ r4 r5);
    [|exact H4|cbn [answer_of]; now rewrite T4|exact H5|cbn [answer_of]; now rewrite T5].
  cbn [truthy_opt]. unfold ret. cbv beta iota. rewrite say_emits.
  eexists. eexists. split; [reflexivity|].
  split; [cbn [after trace emit next_reply]; rewrite <- app_assoc; reflexivity|].
  split.
  - rewrite (proj2 (say_quiet _ _ _ _)), !(proj2 (after_more _ _ _ _)).
    cbn [trace emit next_completion]. rewrite gpt_requests_app.
    rewrite !(proj2 (after_more _ _ _ _)), (proj2 (say_quiet _ _ _ _)).
    rewrite !(proj2 (after_more _ _ _ _)), (proj2 (say_quiet _ _ _ _)).
    reflexivity.
  - rewrite (proj1 (say_quiet _ _ _ _)).
    rewrite !(proj2 (proj2 (after_facts _ _ _ _))).
    cbn [trace emit next_completion]. rewrite intent_requests_app.
    rewrite !(proj2 (proj2 (after_facts _ _ _ _))), (proj1 (say_quiet _ _ _ _)).
    rewrite !(proj2 (proj2 (after_facts _ _ _ _))), (proj1 (say_quiet _ _ _ _)).
    cbn [intent_requests filter]. rewrite <- !app_assoc. reflexivity.
Qed.

Lemma run_unheard_followup_is_passed_over_witness :
  exists w' pre,
    ConversationDemo.run sample_demo
      (scripted_world [reply_with (Some "yesno_yes") "ja"; animal_reply "hond";
                       reply_with None "ze zijn trouw"]
         (reply_with None EmptyString) [inr "Heb je zelf een hond gehad?"])
    = (Return tt, w')
    /\ trace w'
       = pre ++ [Printed "The detected intent: None";
                 say_event sample_demo ConversationDemo.farewell true]
    /\ gpt_requests (trace w')
       = [GptRequest (ConversationDemo.followup_prompt "hond" "ze zijn trouw")].
Proof.
  destruct (run_unheard_followup_is_passed_over sample_demo
              (scripted_world [reply_with (Some "yesno_yes") "ja"; animal_reply "hond";
                               reply_with None "ze zijn trouw"]
                 (reply_with None EmptyString) [inr "Heb je zelf een hond gehad?"])
              (reply_with (Some "yesno_yes") "ja") (animal_reply "hond")
              (reply_with None "ze zijn trouw")
              (reply_with None EmptyString) (reply_with None EmptyString)
              "hond" "Heb je zelf een hond gehad?")
    as (w' & pre & H1 & H2 & H3 & _); try (vm_compute; reflexivity).
  exists w', pre. split; [exact H1|]. split; [exact H2 | exact H3].
Defined.

(** An ask primitive ends whenever the recognizer answers: it returns
    (it raises nothing and does not loop) after [m] recognition requests,
    [m] at most [max_attempts]; it returns [None] only after all the
    attempts, and a value only as the answer of one of the replies. *)
Theorem ask_ends_within_attempts (p : primitive) (question : string) (n : Z) (w : world) :
  (forall k, asked w <= k -> exists r, recognizer w k = inr r) ->
  exists v w' m,
    ask p question n w = (Return v, w')
    /\ m <= Z.to_nat n
    /\ (v = None -> m = Z.to_nat n)
    /\ intent_requests (trace w')
       = intent_requests (trace w) ++ repeat (request_of p) m
    /\ (forall x, v = Some x ->
          exists k r, asked w <= k /\ recognizer w k = inr r /\ answer_of p r = Some x).
Proof.
  intros Hrep. rewrite ask_unfold.
  destruct (while_attempts_replies p question n (Z.to_nat n) 0 w)
    as (v & w' & m & Hrun & Hm & Hnone & _ & _ & Ht & _ & Hv);
    [f_equal; lia | exact Hrep |].
  exists v, w', m. now repeat split.
Qed.

Lemma ask_ends_within_attempts_witness :
  exists v w' m,
    ask (Listen sample_memo 75) "Hoe gaat het?" 2
      (second_try_world (reply_with None EmptyString) (reply_with None "goed"))
    = (Return v, w')
    /\ m <= 2
    /\ intent_requests (trace w') = repeat (IntentRequest 4711 []) m.
Proof.
  destruct (ask_ends_within_attempts (Listen sample_memo 75) "Hoe gaat het?" 2
              (second_try_world (reply_with None EmptyString) (reply_with None "goed")))
    as (v & w' & m & H1 & H2 & _ & H3 & _).
  - intros k _. destruct k; eexists; reflexivity.
  - exists v, w', m. split; [exact H1|]. split; [exact H2 | exact H3].
Defined.

(** ** Several sessions under every interleaving *)

Lemma lookup_last_app {A} (l : list A) (x : A) : (l ++ [x]) !! length l = Some x.
Proof. induction l as [|a l IH]; [reflexivity | exact IH]. Qed.

Lemma insert_last_app {A} (l : list A) (x y : A) :
  <[length l := y]> (l ++ [x]) = l ++ [y].
Proof. induction l as [|a l IH]; [reflexivity | simpl; now rewrite IH]. Qed.

Lemma lookup_before_last {A} (l : list A) (x : A) (i : nat) :
  i < length l -> (l ++ [x]) !! i = l !! i.
Proof.
  revert i; induction l as [|a l IH]; intros [|i] H; simpl in *; try lia; try reflexivity.
  apply IH. lia.
Qed.

Lemma lookup_beyond {A} (l : list A) (i : nat) : length l <= i -> l !! i = None.
Proof.
  revert i; induction l as [|a l IH]; intros [|i] H; simpl in *; try lia; try reflexivity.
  apply IH. lia.
Qed.

Lemma lookup_within {A} (l : list A) (i : nat) : i < length l -> exists x, l !! i = Some x.
Proof.
  revert i; induction l as [|a l IH]; intros [|i] H; simpl in *; try lia.
  - now exists a.
  - apply IH. lia.
Qed.

Lemma forallb_lookup {A} (f : A -> bool) (l : list A) (i : nat) (x : A) :
  forallb f l = true -> l !! i = Some x -> f x = true.
Proof.
  revert i; induction l as [|a l IH]; intros [|i] H E; simpl in *; try discriminate;
    apply andb_true_iff in H as [Ha Hl].
  - now injection E as <-.
  - now apply (IH i).
Qed.

Lemma finished_cannot_move (i : nat) (s : logger) (w : writer) :
  threads s !! i = Some w -> finished w = true -> MemoLLM.log_writer i s = None.
Proof.
  intros E F. unfold MemoLLM.log_writer. rewrite E.
  destruct w; try discriminate F; reflexivity.
Qed.

Lemma absent_cannot_move (i : nat) (s : logger) :
  threads s !! i = None -> MemoLLM.log_writer i s = None.
Proof. intros E. unfold MemoLLM.log_writer. now rewrite E. Qed.

(** With every thread finished, no worker can move. *)
Lemma rest_cannot_move (i : nat) (s : logger) :
  forallb finished (threads s) = true -> MemoLLM.log_writer i s = None.
Proof.
  intros F. destruct (threads s !! i) as [w|] eqn:E.
  - apply (finished_cannot_move i s w E). now apply (forallb_lookup _ _ i w F).
  - now apply absent_cannot_move.
Qed.

Lemma log_text_snoc (L : list session_spec) (ses : session_spec) (path : string) :
  log_text (L ++ [ses]) path
  = log_text L path
    +:+ (if String.eqb (spec_path ses) path then text_of (spec_records ses)
         else EmptyString).
Proof.
  induction L as [|a L IH]; cbn [log_text app].
  - now rewrite append_nil_r.
  - now rewrite IH, append_assoc.
Qed.

Lemma file_content_append (p data : string) (fs : gmap string string) (path : string) :
  file_content (append_file p data fs) path
  = file_content fs path +:+ (if String.eqb p path then data else EmptyString).
Proof.
  destruct (String.eqb_spec p path) as [->|Hne].
  - apply file_content_append_eq.
  - now rewrite file_content_append_ne, append_nil_r.
Qed.

Lemma exec_put_at (o : op) (s : logger) (qs : list (list item)) (q : list item) :
  is_put o = true -> log_queue s = Some (length qs) -> queues s = qs ++ [q] ->
  exists x, puts_of o = [x] /\ exec_op o s = Done (set_queues (qs ++ [q ++ [x]]) s).
Proof.
  intros Ho Hq Hqs. induction o; simpl in *; try discriminate.
  - exists x. rewrite Hq, Hqs, lookup_last_app, insert_last_app. now split.
  - rewrite Hq. now apply IHo.
Qed.

(** A late call at rest: it is done at once, and the system stays at
    rest. *)
Lemma late_op_at_rest (fs0 : gmap string string) (L1 : list session_spec)
    (o : op) (s : logger) :
  late_op o = true -> at_rest fs0 L1 s ->
  exists s', exec_op o s = Done s' /\ at_rest fs0 L1 s'.
Proof.
  intros Ho Hrest. pose proof Hrest as (Hf & [Hwq Hwt] & Hfiles).
  destruct o as [| | | | |o|o]; try discriminate Ho; destruct o; try discriminate Ho.
  - (* if self.log_queue: put *)
    simpl. destruct (log_queue s) as [q|] eqn:Eq.
    + destruct (lookup_within (queues s) q (Hwq q eq_refl)) as [content Ec].
      rewrite Ec. eexists. split; [reflexivity|].
      split; [exact Hf|]. split; [|exact Hfiles].
      split; simpl; [|exact Hwt].
      intros q' E. rewrite length_insert. rewrite Eq in E. injection E as <-.
      now apply Hwq.
    + exists s. split; [reflexivity | exact Hrest].
  - (* if self.log_thread: join *)
    simpl. destruct (log_thread s) as [i|] eqn:Ei.
    + destruct (lookup_within (threads s) i (Hwt i eq_refl)) as [w Ew].
      rewrite Ew, (forallb_lookup _ _ i w Hf Ew).
      exists s. split; [reflexivity | exact Hrest].
    + exists s. split; [reflexivity | exact Hrest].
Qed.

Lemma all_ops_cons (ses : session_spec) (L : list session_spec) (tl : list op) :
  all_ops (ses :: L) ++ tl = spec_ops ses ++ (all_ops L ++ tl).
Proof. unfold all_ops. simpl. now rewrite <- app_assoc. Qed.

Lemma spec_tail (ses : session_spec) :
  awaiting (concat (map utterance_ops (snd ses)) ++ MemoLLM.stop_logging) = true
  /\ puts (concat (map utterance_ops (snd ses)) ++ MemoLLM.stop_logging)
     = map Some (map utterance_line (snd ses)) ++ [None].
Proof. apply session_tail. Qed.

Section Sessions.

Variable fs0 : gmap string string.
Variable L : list session_spec.

Lemma multi_inv_boot (tail : list op) :
  forallb late_op tail = true -> multi_inv fs0 L (boot (all_ops L ++ tail) fs0).
Proof.
  intros Ht. exists [], L, tail. split; [reflexivity|]. split; [exact Ht|].
  left. split; [reflexivity|]. split; [|reflexivity].
  split; [reflexivity|]. split; [split; intros x E; discriminate E|].
  intros path. simpl. now rewrite append_nil_r.
Qed.

Lemma resting_step (L1 L2 : list session_spec) (tl : list op) (c c' : config) :
  L = L1 ++ L2 -> forallb late_op tl = true ->
  raised c = None -> at_rest fs0 L1 (obj c) -> pending c = all_ops L2 ++ tl ->
  step c c' -> multi_inv fs0 L c'.
Proof.
  intros HL Htl Hr Hrest Hp Hstep.
  destruct (step_cases _ _ Hstep) as [H|[i H]].
  - unfold driver_step in H. rewrite Hp in H. destruct L2 as [|ses L2'].
    + (* a late call *)
      simpl in H. destruct tl as [|o tl']; [discriminate|].
      simpl in Htl. apply andb_true_iff in Htl as [Ho Htl'].
      destruct (late_op_at_rest fs0 L1 o (obj c) Ho Hrest) as (s' & Hexec & Hrest').
      rewrite Hexec in H. injection H as <-.
      exists L1, [], tl'. split; [exact HL|]. split; [exact Htl'|].
      left. simpl. split; [exact Hr|]. split; [exact Hrest' | reflexivity].
    + (* the next session starts *)
      rewrite all_ops_cons in H.
      exists L1, (ses :: L2'), tl. split; [exact HL|]. split; [exact Htl|].
      right. exists ses, L2'. split; [reflexivity|]. left.
      exists (obj c), 1. split; [now left|]. split; [exact Hrest|].
      simpl. unfold driver_step. simpl. simpl in H. injection H as <-.
      now rewrite Hr.
  - unfold writer_step in H. destruct Hrest as (Hf & _ & _).
    now rewrite (rest_cannot_move i (obj c) Hf) in H.
Qed.

Lemma starting_in_step (L1 : list session_spec) (ses : session_spec)
    (L2' : list session_spec) (tl : list op) (c c' : config) :
  L = L1 ++ ses :: L2' -> forallb late_op tl = true ->
  starting_in fs0 L1 ses (all_ops L2' ++ tl) c ->
  step c c' -> multi_inv fs0 L c'.
Proof.
  intros HL Htl (s & k & Hk & Hrest & Hrun) Hstep.
  pose proof Hrest as (Hf & _ & Hfiles).
  destruct (spec_tail ses) as [Ht1 Ht2].
  exists L1, (ses :: L2'), tl. split; [exact HL|]. split; [exact Htl|].
  right. exists ses, L2'. split; [reflexivity|].
  destruct Hk as [-> | ->]; simpl in Hrun; injection Hrun as <-.
  - destruct (step_cases _ _ Hstep) as [H|[i H]].
    + injection H as <-. left. exists s, 2. split; [now right|].
      split; [exact Hrest | reflexivity].
    + unfold writer_step in H. cbn [obj] in H.
      match type of H with context [MemoLLM.log_writer i ?st] =>
        rewrite (rest_cannot_move i st Hf) in H end.
      discriminate H.
  - destruct (step_cases _ _ Hstep) as [H|[i H]].
    + injection H as <-. right.
      exists (queues s), (threads s), [], (WOpening (spec_path ses)), [], [],
        (Put (Some (MemoLLM.start_marker (snd (fst ses))))
           :: (concat (map utterance_ops (snd ses)) ++ MemoLLM.stop_logging)).
      repeat split; try reflexivity; try assumption.
      * cbn [awaiting is_put andb].
        destruct (concat (map utterance_ops (snd ses)) ++ MemoLLM.stop_logging) eqn:E;
          [discriminate Ht1 | exact Ht1].
      * change (Some (MemoLLM.start_marker (snd (fst ses)))
                  :: puts (concat (map utterance_ops (snd ses)) ++ MemoLLM.stop_logging)
                = map Some (spec_records ses) ++ [None]).
        now rewrite Ht2.
      * intros path.
        change (file_content (files s) path
                = file_content fs0 path
                  +:+ (log_text L1 path
                       +:+ (if String.eqb (spec_path ses) path then EmptyString
                            else EmptyString))).
        rewrite Hfiles.
        destruct (String.eqb (spec_path ses) path); now rewrite append_nil_r.
    + unfold writer_step in H. cbn [obj] in H.
      match type of H with context [MemoLLM.log_writer i ?st] =>
        rewrite (rest_cannot_move i st Hf) in H end.
      discriminate H.
Qed.

Lemma in_sess_driver (L1 : list session_spec) (ses : session_spec)
    (L2' : list session_spec) (tl : list op) (c c' : config) :
  L = L1 ++ ses :: L2' -> forallb late_op tl = true ->
  in_sess fs0 L1 ses (all_ops L2' ++ tl) c ->
  driver_step c = Some c' -> multi_inv fs0 L c'.
Proof.
  intros HL Htl
    (qs & ths & q & w & D & I & p & Hr & Hq & Hlq & Hth & Hlt & Hf & Hp & Haw & Heq & Hok & Hfile)
    H.
  unfold driver_step in H. rewrite Hp in H.
  destruct p as [|o p']; [discriminate Haw|]. cbn [app] in H.
  destruct (awaiting_cons _ _ Haw) as [[-> ->]|[Hput Haw']].
  - (* the join: the session is over *)
    cbn [exec_op] in H. rewrite Hlt, Hth, lookup_last_app in H.
    destruct (finished w) eqn:Hfin; [|discriminate]. injection H as <-.
    destruct w; try discriminate Hfin; [|destruct Hok].
    simpl in Hok. subst I. unfold puts in Heq. simpl in Heq. rewrite app_nil_r in Heq.
    destruct (map_some_end D (spec_records ses) q Heq) as [-> ->].
    exists (L1 ++ [ses]), L2', tl.
    split; [rewrite HL, <- app_assoc; reflexivity|]. split; [exact Htl|].
    left. cbn [raised obj pending]. split; [exact Hr|]. split; [|reflexivity].
    split; [|split; [split|]].
    + rewrite Hth, forallb_app, Hf. reflexivity.
    + intros q' E. rewrite Hlq in E. injection E as <-. rewrite Hq, length_app. simpl. lia.
    + intros i E. rewrite Hlt in E. injection E as <-. rewrite Hth, length_app. simpl. lia.
    + intros path. now rewrite Hfile, log_text_snoc.
  - (* a put *)
    destruct (exec_put_at o (obj c) qs q Hput Hlq Hq) as (x & Hx & Hexec).
    rewrite Hexec in H. injection H as <-.
    exists L1, (ses :: L2'), tl. split; [exact HL|]. split; [exact Htl|].
    right. exists ses, L2'. split; [reflexivity|]. right.
    exists qs, ths, (q ++ [x]), w, D, I, p'.
    cbn [raised obj pending queues log_queue threads log_thread files set_queues].
    repeat split; try assumption.
    rewrite <- Heq. unfold puts. simpl. rewrite Hx. now rewrite <- !app_assoc.
Qed.

Lemma in_sess_writer (L1 : list session_spec) (ses : session_spec)
    (L2' : list session_spec) (tl : list op) (i : nat) (c c' : config) :
  L = L1 ++ ses :: L2' -> forallb late_op tl = true ->
  in_sess fs0 L1 ses (all_ops L2' ++ tl) c ->
  writer_step i c = Some c' -> multi_inv fs0 L c'.
Proof.
  intros HL Htl
    (qs & ths & q & w & D & I & p & Hr & Hq & Hlq & Hth & Hlt & Hf & Hp & Haw & Heq & Hok & Hfile)
    H.
  unfold writer_step in H.
  destruct (MemoLLM.log_writer i (obj c)) as [s'|] eqn:E; [|discriminate].
  injection H as <-.
  exists L1, (ses :: L2'), tl. split; [exact HL|]. split; [exact Htl|].
  right. exists ses, L2'. split; [reflexivity|]. right.
  destruct (lt_eq_lt_dec i (length ths)) as [[Hlt'|Hi]|Hgt]; [|subst i|].
  - (* an old thread *)
    exfalso. destruct (lookup_within ths i Hlt') as [w' Hw'].
    rewrite (finished_cannot_move i (obj c) w') in E; [discriminate| |].
    + now rewrite Hth, lookup_before_last.
    + now apply (forallb_lookup _ _ i w' Hf).
  - (* the worker of the session *)
    unfold MemoLLM.log_writer in E. rewrite Hth, lookup_last_app in E.
    destruct w as [pth|pth buf|pth buf q'|pth buf [line|]|pth buf| |e]; simpl in Hok.
    + destruct Hok as [-> ->]. rewrite insert_last_app in E. injection E as <-.
      exists qs, ths, q, (WWaiting (spec_path ses) EmptyString), D, [], p.
      cbn [raised obj pending queues log_queue threads log_thread files
           set_threads set_files].
      repeat split; try assumption.
      intros path. rewrite file_content_open_append. apply Hfile.
    + destruct Hok as (-> & -> & ->). rewrite Hlq, insert_last_app in E. injection E as <-.
      exists qs, ths, q, (WGetting (spec_path ses) EmptyString (length qs)), D, [], p.
      cbn [raised obj pending queues log_queue threads log_thread files set_threads].
      repeat split; try assumption.
    + destruct Hok as (-> & -> & -> & ->). rewrite Hq, lookup_last_app in E.
      destruct q as [|x rest]; [discriminate|].
      rewrite !insert_last_app in E. injection E as <-.
      exists qs, ths, rest, (WHolding (spec_path ses) EmptyString x), D, [x], p.
      cbn [raised obj pending queues log_queue threads log_thread files
           set_threads set_queues].
      repeat split; try assumption.
    + destruct Hok as (-> & -> & ->). rewrite insert_last_app in E. injection E as <-.
      exists qs, ths, q, (WWritten (spec_path ses) (line +:+ nl)), D, [Some line], p.
      cbn [raised obj pending queues log_queue threads log_thread files set_threads].
      repeat split; try assumption.
      now exists line.
    + destruct Hok as (-> & -> & ->). rewrite insert_last_app in E. injection E as <-.
      exists qs, ths, q, WExited, D, [None], p.
      cbn [raised obj pending queues log_queue threads log_thread files
           set_threads set_files].
      repeat split; try assumption.
      intros path. rewrite file_content_append, Hfile.
      destruct (String.eqb (spec_path ses) path); now rewrite !append_nil_r.
    + destruct Hok as (-> & line & -> & ->). rewrite insert_last_app in E.
      injection E as <-.
      exists qs, ths, q, (WWaiting (spec_path ses) EmptyString), (D ++ [line]), [], p.
      cbn [raised obj pending queues log_queue threads log_thread files
           set_threads set_files].
      repeat split; try assumption.
      * rewrite <- Heq. rewrite map_app. simpl. now rewrite <- !app_assoc.
      * intros path. rewrite file_content_append, Hfile.
        destruct (String.eqb (spec_path ses) path).
        -- rewrite text_of_app. simpl. now rewrite append_nil_r, !append_assoc.
        -- now rewrite !append_nil_r.
    + discriminate.
    + discriminate.
  - exfalso. rewrite absent_cannot_move in E; [discriminate|].
    apply lookup_beyond. rewrite Hth, length_app. simpl. lia.
Qed.

Lemma multi_inv_step (c c' : config) : multi_inv fs0 L c -> step c c' -> multi_inv fs0 L c'.
Proof.
  intros (L1 & L2 & tl & HL & Htl & [(Hr & Hrest & Hp)|(ses & L2' & -> & [Hs|Hs])]) Hstep.
  - now apply (resting_step L1 L2 tl c).
  - now apply (starting_in_step L1 ses L2' tl c).
  - destruct (step_cases _ _ Hstep) as [H|[i H]].
    + now apply (in_sess_driver L1 ses L2' tl c).
    + now apply (in_sess_writer L1 ses L2' tl i c).
Qed.

Lemma multi_inv_reach (tail : list op) (c : config) :
  forallb late_op tail = true ->
  rtc step (boot (all_ops L ++ tail) fs0) c -> multi_inv fs0 L c.
Proof.
  intros Ht H.
  apply rtc_ind_r with (x := boot (all_ops L ++ tail) fs0) (P := multi_inv fs0 L) in H.
  - exact H.
  - now apply multi_inv_boot.
  - intros y z _ Hyz Hy. now apply (multi_inv_step y).
Qed.

End Sessions.

Lemma spec_ops_cons (ses : session_spec) :
  exists rest, spec_ops ses = Mkdir "logs" :: rest.
Proof. now eexists. Qed.

Lemma multi_inv_raised (fs0 : gmap string string) (L : list session_spec) (c : config) :
  multi_inv fs0 L c -> raised c = None.
Proof.
  intros (L1 & L2 & tl & _ & _ & [(Hr & _)|(ses & L2' & _ & [Hs|Hs])]).
  - exact Hr.
  - destruct Hs as (s & k & [-> | ->] & _ & Hrun); simpl in Hrun;
      injection Hrun as <-; reflexivity.
  - now destruct Hs as (qs & ths & q & w & D & I & p & Hr & _).
Qed.

(** The driver has returned only when every session is over. *)
Lemma multi_inv_returned (fs0 : gmap string string) (L : list session_spec) (c : config) :
  multi_inv fs0 L c -> returned c -> at_rest fs0 L (obj c).
Proof.
  intros (L1 & L2 & tl & HL & _ & [(Hr & Hrest & Hp)|(ses & L2' & _ & [Hs|Hs])]) [Hnil _].
  - rewrite Hnil in Hp. destruct L2 as [|ses L2'].
    + rewrite app_nil_r in HL. now subst L1.
    + rewrite all_ops_cons in Hp. destruct (spec_ops_cons ses) as [rest E].
      rewrite E in Hp. discriminate Hp.
  - destruct Hs as (s & k & [-> | ->] & _ & Hrun); simpl in Hrun;
      injection Hrun as <-; discriminate Hnil.
  - destruct Hs as (qs & ths & q & w & D & I & p & _ & _ & _ & _ & _ & _ & Hp & Haw & _).
    rewrite Hnil in Hp. destruct p; [discriminate Haw | discriminate Hp].
Qed.

(** Unless the driver has returned, some thread can move. *)
Lemma multi_inv_progress (fs0 : gmap string string) (L : list session_spec) (c : config) :
  multi_inv fs0 L c -> ~ returned c -> exists c', step c c'.
Proof.
  intros (L1 & L2 & tl & HL & Htl & [(Hr & Hrest & Hp)|(ses & L2' & _ & [Hs|Hs])]) Hnot.
  - destruct L2 as [|ses L2'].
    + simpl in Hp. destruct tl as [|o tl'].
      * exfalso. apply Hnot. now split.
      * simpl in Htl. apply andb_true_iff in Htl as [Ho _].
        destruct (late_op_at_rest fs0 L1 o (obj c) Ho Hrest) as (s' & Hexec & _).
        eexists. apply step_driver. unfold driver_step. rewrite Hp, Hexec. reflexivity.
    + rewrite all_ops_cons in Hp. destruct (spec_ops_cons ses) as [rest E].
      rewrite E in Hp. eexists. apply step_driver. unfold driver_step.
      rewrite Hp. reflexivity.
  - destruct Hs as (s & k & [-> | ->] & _ & Hrun); simpl in Hrun;
      injection Hrun as <-; eexists; apply step_driver; reflexivity.
  - destruct Hs
      as (qs & ths & q & w & D & I & p & Hr & Hq & Hlq & Hth & Hlt & Hf & Hp & Haw & Heq & Hok & _).
    destruct p as [|o p']; [discriminate Haw|].
    destruct (awaiting_cons _ _ Haw) as [[-> ->]|[Hput Haw']].
    + (* the driver waits in [join] *)
      assert (Hw0 : forall s', MemoLLM.log_writer (length ths) (obj c) = Some s' ->
                exists c', step c c').
      { intros s' Hs'. eexists. apply (step_writer (length ths)). unfold writer_step.
        rewrite Hs'. reflexivity. }
      unfold puts in Heq; simpl in Heq; rewrite app_nil_r in Heq.
      destruct w as [pth|pth buf|pth buf q'|pth buf [line|]|pth buf| |e]; simpl in Hok.
      * eapply Hw0. unfold MemoLLM.log_writer. rewrite Hth, lookup_last_app. reflexivity.
      * eapply Hw0. unfold MemoLLM.log_writer. rewrite Hth, lookup_last_app, Hlq.
        reflexivity.
      * destruct Hok as (-> & -> & -> & ->).
        destruct q as [|x q].
        { exfalso. change (map Some D ++ [] = map Some (spec_records ses) ++ [None]) in Heq.
          rewrite app_nil_r in Heq.
          apply (f_equal (@rev item)) in Heq. rewrite rev_app_distr in Heq.
          simpl in Heq. rewrite <- map_rev in Heq.
          destruct (rev D); discriminate. }
        eapply Hw0. unfold MemoLLM.log_writer.
        rewrite Hth, lookup_last_app, Hq, lookup_last_app. reflexivity.
      * eapply Hw0. unfold MemoLLM.log_writer. rewrite Hth, lookup_last_app. reflexivity.
      * eapply Hw0. unfold MemoLLM.log_writer. rewrite Hth, lookup_last_app. reflexivity.
      * eapply Hw0. unfold MemoLLM.log_writer. rewrite Hth, lookup_last_app. reflexivity.
      * eexists. apply step_driver. unfold driver_step. rewrite Hp. cbn [app exec_op].
        rewrite Hlt, Hth, lookup_last_app. reflexivity.
      * destruct Hok.
    + destruct (exec_put_at o (obj c) qs q Hput Hlq Hq) as (x & Hx & Hexec).
      eexists. apply step_driver. unfold driver_step. rewrite Hp. cbn [app].
      rewrite Hexec. reflexivity.
Qed.

Lemma calls_are_late (calls : list late_call) : forallb late_op (calls_ops calls) = true.
Proof.
  induction calls as [|[speaker text now|] calls IH]; [reflexivity | exact IH | exact IH].
Qed.

Lemma append_inv_tail (a b tail : string) : a +:+ tail = b +:+ tail -> a = b.
Proof.
  revert b. induction a as [|c a IH]; intros [|d b] H.
  - reflexivity.
  - apply (f_equal String.length) in H.
    rewrite append_nil_l, append_cons in H. cbn [String.length] in H.
    rewrite length_append in H. lia.
  - apply (f_equal String.length) in H.
    rewrite append_nil_l, append_cons in H. cbn [String.length] in H.
    rewrite length_append in H. lia.
  - rewrite !append_cons in H. injection H as -> H. f_equal. now apply IH.
Qed.

(** Sessions whose ids are file names log to the same file exactly when
    they have the same id. *)
Lemma log_path_of_eqb (a b : string) :
  file_name a = true -> file_name b = true ->
  String.eqb (MemoLLM.log_path_of a) (MemoLLM.log_path_of b) = String.eqb a b.
Proof.
  intros Ha Hb. rewrite !log_path_of_file_name by assumption.
  destruct (String.eqb_spec a b) as [->|Hne]; [apply String.eqb_refl|].
  apply String.eqb_neq. intros H. apply Hne.
  apply (append_inv_tail a b ".log").
  change ("logs/" +:+ (a +:+ ".log") = "logs/" +:+ (b +:+ ".log")) in H.
  now injection H.
Qed.

Lemma log_text_log_of (L : list session_spec) (log_id : string) :
  file_names L = true -> file_name log_id = true ->
  log_text L ("logs/" +:+ log_id +:+ ".log") = log_of L log_id.
Proof.
  intros HL Hid. rewrite <- (log_path_of_file_name log_id Hid).
  induction L as [|ses L IH]; [reflexivity|].
  cbn [file_names forallb] in HL. apply andb_true_iff in HL as [Hs HL].
  cbn [log_text log_of]. rewrite (IH HL). f_equal.
  unfold spec_path, session_path. rewrite (log_path_of_eqb _ _ Hs Hid).
  unfold spec_records. now rewrite session_lines_records.
Qed.

(** Sessions run one after the other on one object, each with a file name
    for its id: under every interleaving the driver is never stuck and
    raises nothing; and when the last [stop_logging] has returned, every
    worker has finished and the log [logs/<id>.log] of each id holds what
    it held before followed by the lines of the sessions with that id,
    session after session in the order they were run, each session's
    lines in the order they were submitted. *)
Theorem sessions_append_in_order (fs0 : gmap string string) (L : list session_spec)
    (sched : list tid) (c : config) :
  file_names L = true ->
  run_schedule sched (boot (all_ops L) fs0) = Some c ->
  raised c = None
  /\ (~ returned c -> exists c', step c c')
  /\ (returned c ->
      forallb finished (threads (obj c)) = true
      /\ forall log_id, file_name log_id = true ->
           file_content (files (obj c)) ("logs/" +:+ log_id +:+ ".log")
           = file_content fs0 ("logs/" +:+ log_id +:+ ".log") +:+ log_of L log_id).
Proof.
  intros HL Hrun. apply run_schedule_steps in Hrun.
  rewrite <- (app_nil_r (all_ops L)) in Hrun.
  pose proof (multi_inv_reach fs0 L [] c eq_refl Hrun) as Hinv.
  split; [now apply (multi_inv_raised fs0 L)|].
  split; [now apply (multi_inv_progress fs0 L)|].
  intros Hret. destruct (multi_inv_returned fs0 L c Hinv Hret) as (Hf & _ & Hfiles).
  split; [exact Hf|]. intros log_id Hid.
  now rewrite Hfiles, (log_text_log_of L log_id HL Hid).
Qed.

Lemma sessions_append_in_order_witness :
  file_content
    (files (obj (run_to two_sessions_schedule (boot (all_ops two_sessions) ∅))))
    "logs/s1.log"
  = text_of ["[2025-03-09 14:05:59] ### START NEW LOG ###";
             "[2025-03-09 14:05:59] Memo: Hallo";
             "[2025-03-09 14:06:07] ### START NEW LOG ###";
             "[2025-03-09 14:06:07] Persoon: dag"].
Proof.
  destruct (sessions_append_in_order ∅ two_sessions two_sessions_schedule
              (run_to two_sessions_schedule (boot (all_ops two_sessions) ∅)))
    as (_ & _ & H).
  - reflexivity.
  - vm_compute; reflexivity.
  - destruct H as [_ H]; [split; vm_compute; reflexivity|].
    refine (eq_trans (H "s1" eq_refl) _). vm_compute; reflexivity.
Defined.

(** Calls of [log_utterance] and [stop_logging] made after the last
    session is over (or with no session at all) return without blocking
    and without an exception, and nothing of them reaches a log: each
    log holds what the sessions left.  So a record logged after
    [stop_logging] is lost, and a second [stop_logging] is harmless. *)
Theorem late_calls_write_nothing (fs0 : gmap string string) (L : list session_spec)
    (calls : list late_call) (sched : list tid) (c : config) :
  file_names L = true ->
  run_schedule sched (boot (all_ops L ++ calls_ops calls) fs0) = Some c ->
  raised c = None
  /\ (~ returned c -> exists c', step c c')
  /\ (returned c ->
      forall log_id, file_name log_id = true ->
        file_content (files (obj c)) ("logs/" +:+ log_id +:+ ".log")
        = file_content fs0 ("logs/" +:+ log_id +:+ ".log") +:+ log_of L log_id).
Proof.
  intros HL Hrun. apply run_schedule_steps in Hrun.
  pose proof (multi_inv_reach fs0 L (calls_ops calls) c (calls_are_late calls) Hrun)
    as Hinv.
  split; [now apply (multi_inv_raised fs0 L)|].
  split; [now apply (multi_inv_progress fs0 L)|].
  intros Hret log_id Hid.
  destruct (multi_inv_returned fs0 L c Hinv Hret) as (_ & _ & Hfiles).
  now rewrite Hfiles, (log_text_log_of L log_id HL Hid).
Qed.

Lemma late_calls_write_nothing_witness :
  returned (run_to (two_sessions_schedule ++ repeat Driver 3)
              (boot (all_ops two_sessions ++ calls_ops late_calls) ∅))
  /\ file_content
       (files (obj (run_to (two_sessions_schedule ++ repeat Driver 3)
                      (boot (all_ops two_sessions ++ calls_ops late_calls) ∅))))
       "logs/s1.log"
     = text_of ["[2025-03-09 14:05:59] ### START NEW LOG ###";
                "[2025-03-09 14:05:59] Memo: Hallo";
                "[2025-03-09 14:06:07] ### START NEW LOG ###";
                "[2025-03-09 14:06:07] Persoon: dag"].
Proof.
  assert (R : returned (run_to (two_sessions_schedule ++ repeat Driver 3)
                          (boot (all_ops two_sessions ++ calls_ops late_calls) ∅)))
    by (split; vm_compute; reflexivity).
  split; [exact R|].
  destruct (late_calls_write_nothing ∅ two_sessions late_calls
              (two_sessions_schedule ++ repeat Driver 3)
              (run_to (two_sessions_schedule ++ repeat Driver 3)
                 (boot (all_ops two_sessions ++ calls_ops late_calls) ∅)))
    as (_ & _ & H).
  - reflexivity.
  - vm_compute; reflexivity.
  - refine (eq_trans (H R "s1" eq_refl) _). vm_compute; reflexivity.
Defined.

(** ** The dialogue history of [MemoLLM.run] *)

Lemma no_completion_ret {A} (a : A) : no_completion (ret a).
Proof. intros w. now repeat split. Qed.

Lemma no_completion_bind {A B} (c : M A) (k : A -> M B) :
  no_completion c -> (forall a, no_completion (k a)) -> no_completion (bind c k).
Proof.
  intros Hc Hk w. unfold bind. specialize (Hc w).
  destruct (c w) as [[a|e|] w1]; simpl in *; [|exact Hc..].
  destruct (Hk a w1) as (H1 & H2 & H3 & H4). destruct Hc as (G1 & G2 & G3 & G4).
  repeat split; congruence.
Qed.

Lemma no_completion_send (e : event) : is_gpt_request e = false -> no_completion (send e).
Proof.
  intros He w. unfold send. simpl. rewrite gpt_requests_app.
  destruct e; try discriminate He; simpl; rewrite app_nil_r; now repeat split.
Qed.

Lemma no_completion_dialogflow (request_id : Z) (contexts : list (string * Z)) :
  no_completion (dialogflow_request request_id contexts).
Proof.
  intros w. unfold dialogflow_request.
  destruct (recognizer w (asked w)); simpl; rewrite gpt_requests_app; simpl;
    rewrite app_nil_r; now repeat split.
Qed.

Lemma no_completion_while {A} (body : M (option A)) (max_attempts : Z) :
  no_completion body ->
  forall (fuel : nat) (attempts : Z),
    no_completion (while_attempts fuel body attempts max_attempts).
Proof.
  intros Hb. induction fuel as [|fuel IH]; intros attempts; cbn [while_attempts];
    destruct (attempts <? max_attempts)%Z; try apply no_completion_ret.
  - intros w. now repeat split.
  - apply no_completion_bind; [exact Hb|]. intros [v|]; [apply no_completion_ret | apply IH].
Qed.

Lemma no_completion_listen_attempt (me : MemoLLM.self) (question : string) (speed : Z) :
  no_completion (MemoLLM.listen_attempt me question speed).
Proof.
  unfold MemoLLM.listen_attempt. apply no_completion_bind.
  - now apply no_completion_send.
  - intros _. apply no_completion_bind; [apply no_completion_dialogflow|].
    intros r. destruct (truthy (query_text r)); apply no_completion_ret.
Qed.

Lemma no_completion_listen (me : MemoLLM.self) (question : string) (speed n : Z) :
  no_completion (MemoLLM.listen me question speed n).
Proof. apply no_completion_while, no_completion_listen_attempt. Qed.

Lemma no_completion_do_op (o : op) : no_completion (MemoLLM.do_op o).
Proof.
  intros w. unfold MemoLLM.do_op.
  destruct (exec_op o (logging w)); [now repeat split| |now repeat split].
  destruct (exec_op o _); now repeat split.
Qed.

Lemma no_completion_do_ops (ops : list op) : no_completion (MemoLLM.do_ops ops).
Proof.
  induction ops as [|o ops IH]; cbn [MemoLLM.do_ops]; [apply no_completion_ret|].
  apply no_completion_bind; [apply no_completion_do_op | intros _; exact IH].
Qed.

Lemma no_completion_log_utterance (speaker text : string) :
  no_completion (MemoLLM.call_log_utterance speaker text).
Proof.
  intros w. unfold MemoLLM.call_log_utterance.
  destruct (log_queue (logging w)); [|now repeat split].
  apply no_completion_bind; [intros w0; now repeat split|].
  intros now. apply no_completion_do_ops.
Qed.

(** What [listen] returns has been heard: it is the text of a reply of
    the recognizer. *)
Lemma while_listen_heard (me : MemoLLM.self) (question : string) (speed n : Z) :
  forall (fuel : nat) (attempts : Z) (w w' : world) (t : string),
    while_attempts fuel (MemoLLM.listen_attempt me question speed) attempts n w
    = (Return (Some t), w') ->
    exists k rep, recognizer w k = inr rep /\ query_text rep = t.
Proof.
  induction fuel as [|fuel IH]; intros attempts w w' t; cbn [while_attempts];
    destruct (attempts <? n)%Z; try discriminate.
  unfold bind at 1.
  pose proof (no_completion_listen_attempt me question speed w) as (_ & _ & _ & Hrec).
  destruct (MemoLLM.listen_attempt me question speed w) as [[[v|]|e|] w1] eqn:Hatt;
    try discriminate.
  - intros H. injection H as -> <-.
    unfold MemoLLM.listen_attempt, bind, MemoLLM.say, send, dialogflow_request in Hatt.
    simpl in Hatt. destruct (recognizer w (asked w)) as [e|rep] eqn:Hr; [discriminate|].
    destruct (truthy (query_text rep)); [|discriminate].
    injection Hatt as <- _. now exists (asked w), rep.
  - intros H. destruct (IH _ _ _ _ H) as (k & rep & Hk & Ht).
    simpl in Hrec. rewrite Hrec in Hk. now exists k, rep.
Qed.

Lemma llm_action_prompt (dialog_history : string) :
  MemoLLM.llm_action dialog_history = gpt_request (complete_prompt dialog_history).
Proof. reflexivity. Qed.

(** The prompts of the loop of [run] carry the whole dialogue: the
    completion requests it sends are, in order, the prompts for the
    history it was started with, for that history after one turn, after
    two turns, and so on.  A turn adds the line [Memo: r] and a newline,
    where [r] is the answer to the turn's completion request, and the
    text [Persoon: u] without a newline, where [u] is a text the
    recognizer returned, or the word [None] when nothing was heard.
    This holds however the loop ends. *)
Theorem conversation_prompts_carry_history (fuel : nat) (me : MemoLLM.self) (speed : Z)
    (dialog_history llm_response : string) (w : world) :
  exists (turns : list (string * option string)) (n : nat),
    gpt_requests
      (trace (MemoLLM.conversation fuel me speed dialog_history llm_response w).2)
    = gpt_requests (trace w)
      ++ map (fun h => GptRequest (complete_prompt h)) (take n (histories dialog_history turns))
    /\ length turns <= n <= S (length turns)
    /\ forall i r u, turns !! i = Some (r, u) ->
         completer w (completed w + i) = inr r
         /\ (u = None
             \/ exists k rep, recognizer w k = inr rep /\ u = Some (query_text rep)).
Proof.
  revert dialog_history llm_response w.
  assert (Hnone : forall h w0,
    exists (turns : list (string * option string)) (n : nat),
      gpt_requests (trace w0)
      = gpt_requests (trace w0)
        ++ map (fun h => GptRequest (complete_prompt h)) (take n (histories h turns))
      /\ length turns <= n <= S (length turns)
      /\ forall i r u, turns !! i = Some (r, u) ->
           completer w0 (completed w0 + i) = inr r
           /\ (u = None
               \/ exists k rep, recognizer w0 k = inr rep /\ u = Some (query_text rep))).
  { intros h w0. exists [], 0. simpl. rewrite app_nil_r.
    split; [reflexivity|]. split; [lia|]. intros i r u Hi. discriminate Hi. }
  assert (Hone : forall h w0 w1,
    gpt_requests (trace w1) = gpt_requests (trace w0) ++ [GptRequest (complete_prompt h)] ->
    exists (turns : list (string * option string)) (n : nat),
      gpt_requests (trace w1)
      = gpt_requests (trace w0)
        ++ map (fun h => GptRequest (complete_prompt h)) (take n (histories h turns))
      /\ length turns <= n <= S (length turns)
      /\ forall i r u, turns !! i = Some (r, u) ->
           completer w0 (completed w0 + i) = inr r
           /\ (u = None
               \/ exists k rep, recognizer w0 k = inr rep /\ u = Some (query_text rep))).
  { intros h w0 w1 H. exists [], 1. simpl.
    split; [exact H|]. split; [lia|]. intros i r u Hi. discriminate Hi. }
  induction fuel as [|fuel IH]; intros h r0 w; cbn [MemoLLM.conversation];
    destruct (String.eqb (lower r0) "stop"); try apply Hnone.
  unfold bind at 1. rewrite llm_action_prompt. unfold gpt_request.
  destruct (completer w (completed w)) as [e|r] eqn:Hc.
  { apply Hone. simpl. now rewrite gpt_requests_app. }
  unfold bind at 1. unfold print, send.
  set (w1 := emit (Printed ("Memo: " +:+ r))
               (next_completion (emit (GptRequest (complete_prompt h)) w))).
  assert (Hw1 : gpt_requests (trace w1)
                = gpt_requests (trace w) ++ [GptRequest (complete_prompt h)]).
  { unfold w1. simpl. rewrite !gpt_requests_app. simpl. now rewrite app_nil_r. }
  assert (Hc1 : completer w1 = completer w) by reflexivity.
  assert (Hn1 : completed w1 = S (completed w)) by reflexivity.
  assert (Hr1 : recognizer w1 = recognizer w) by reflexivity.
  clearbody w1.
  destruct (String.eqb (lower r) "stop") eqn:Hstop.
  { assert (E : MemoLLM.conversation fuel me speed h r w1 = (Return tt, w1)).
    { destruct fuel; cbn [MemoLLM.conversation]; now rewrite Hstop. }
    rewrite E. now apply Hone. }
  (* a turn: log, listen, log, and the loop again *)
  unfold bind at 1.
  pose proof (no_completion_log_utterance "Memo" r w1) as (A1 & A2 & A3 & A4).
  destruct (MemoLLM.call_log_utterance "Memo" r w1) as [[[]|e|] w2]; cbn [snd] in A1, A2, A3, A4;
    [|apply Hone; simpl; congruence..].
  unfold bind at 1.
  pose proof (no_completion_listen me r speed 2 w2) as (B1 & B2 & B3 & B4).
  destruct (MemoLLM.listen me r speed 2 w2) as [[u|e|] w3] eqn:Hlisten;
    cbn [snd] in B1, B2, B3, B4; [|apply Hone; simpl; congruence..].
  unfold bind at 1.
  pose proof (no_completion_log_utterance "Persoon" (str_of_opt u) w3) as (C1 & C2 & C3 & C4).
  destruct (MemoLLM.call_log_utterance "Persoon" (str_of_opt u) w3) as [[[]|e|] w4];
    cbn [snd] in C1, C2, C3, C4; [|apply Hone; simpl; congruence..].
  destruct (IH ((h +:+ ("Memo: " +:+ r +:+ nl)) +:+ ("Persoon: " +:+ str_of_opt u)) r w4)
    as (turns & n & Hreq & Hlen & Hturns).
  exists ((r, u) :: turns), (S n). split; [|split].
  - rewrite Hreq, C1, B1, A1, Hw1, <- app_assoc. reflexivity.
  - simpl. lia.
  - intros [|i] r' u' Hi; simpl in Hi.
    + injection Hi as <- <-. rewrite Nat.add_0_r. split; [exact Hc|].
      destruct u as [t|]; [right|now left].
      unfold MemoLLM.listen in Hlisten.
      destruct (while_listen_heard _ _ _ _ _ _ _ _ _ Hlisten) as (k & rep & Hk & Ht).
      exists k, rep. split; [|now rewrite Ht].
      rewrite <- Hk. now rewrite A4, Hr1.
    + destruct (Hturns i r' u' Hi) as [Hr Hu]. split.
      * rewrite C2, B2, A2, Hc1, C3, B3, A3, Hn1 in Hr.
        rewrite <- Hr. f_equal. lia.
      * destruct Hu as [Hu|(k & rep & Hk & Hu)]; [now left|right].
        exists k, rep. split; [|exact Hu].
        rewrite C4, B4, A4, Hr1 in Hk. exact Hk.
Qed.

(** With a queue in place, [log_utterance] reads the clock and puts one
    record on the queue. *)
Lemma call_log_utterance_puts (speaker text : string) (w : world) (qi : nat) (q : list item) :
  log_queue (logging w) = Some qi -> queues (logging w) !! qi = Some q ->
  MemoLLM.call_log_utterance speaker text w
  = (Return tt,
     set_logging
       (set_queues
          (<[qi := q ++ [Some (MemoLLM.format_utterance (clock w (ticks w)) speaker text)]]>
             (queues (logging w)))
          (logging w))
       (next_tick w)).
Proof.
  intros Hq Hqs. unfold MemoLLM.call_log_utterance. rewrite Hq.
  unfold bind, localtime, MemoLLM.log_utterance.
  cbn [MemoLLM.do_ops]. unfold bind, MemoLLM.do_op.
  cbn [logging next_tick exec_op]. rewrite Hq, Hqs. reflexivity.
Qed.

(** A turn of the loop of [run] in which the person is not heard: the
    question is asked twice, and the loop goes on with the person's turn
    recorded as the text [None], in the dialogue history that the next
    prompt carries and in the record put on the log queue. *)
Theorem unheard_answer_is_recorded_as_None (fuel : nat) (me : MemoLLM.self) (speed : Z)
    (dialog_history llm_response response : string) (r1 r2 : reply)
    (qi : nat) (q : list item) (w : world) :
  String.eqb (lower llm_response) "stop" = false ->
  completer w (completed w) = inr response ->
  String.eqb (lower response) "stop" = false ->
  recognizer w (asked w) = inr r1 -> truthy (query_text r1) = false ->
  recognizer w (S (asked w)) = inr r2 -> truthy (query_text r2) = false ->
  log_queue (logging w) = Some qi -> queues (logging w) !! qi = Some q ->
  exists w1,
    MemoLLM.conversation (S fuel) me speed dialog_history llm_response w
    = MemoLLM.conversation fuel me speed
        ((dialog_history +:+ ("Memo: " +:+ response +:+ nl)) +:+ "Persoon: None")
        response w1
    /\ queues (logging w1) !! qi
       = Some (q ++ [Some (MemoLLM.format_utterance (clock w (ticks w)) "Memo" response);
                     Some (MemoLLM.format_utterance (clock w (S (ticks w))) "Persoon" "None")])
    /\ intent_requests (trace w1)
       = intent_requests (trace w)
         ++ [IntentRequest (MemoLLM.request_id me) [];
             IntentRequest (MemoLLM.request_id me) []]
    /\ gpt_requests (trace w1)
       = gpt_requests (trace w) ++ [GptRequest (complete_prompt dialog_history)].
Proof.
  intros H0 Hc Hstop H1 N1 H2 N2 Hq Hqs.
  cbn [MemoLLM.conversation]. rewrite H0.
  unfold bind at 1. rewrite llm_action_prompt. unfold gpt_request. rewrite Hc.
  unfold bind at 1. unfold print, send. rewrite Hstop.
  set (w0 := emit (Printed ("Memo: " +:+ response))
               (next_completion (emit (GptRequest (complete_prompt dialog_history)) w))).
  unfold bind at 1.
  rewrite (call_log_utterance_puts "Memo" response w0 qi q Hq Hqs).
  set (wa := set_logging _ (next_tick w0)).
  unfold bind at 1.
  assert (Hl : MemoLLM.listen me response speed 2 wa
               = (Return None,
                  after (Listen me speed) response r2 (after (Listen me speed) response r1 wa))).
  { apply (ask_two_misses (Listen me speed) response wa r1 r2).
    - exact H1.
    - simpl. now rewrite N1.
    - exact H2.
    - simpl. now rewrite N2. }
  rewrite Hl.
  set (wb := after (Listen me speed) response r2 (after (Listen me speed) response r1 wa)).
  unfold bind at 1.
  assert (Hqb : log_queue (logging wb) = Some qi) by exact Hq.
  assert (Hqsb : queues (logging wb) !! qi
                 = Some (q ++ [Some (MemoLLM.format_utterance (clock w (ticks w)) "Memo"
                                       response)])).
  { unfold wb, wa. simpl. apply list_lookup_insert_eq. now apply lookup_lt_Some in Hqs. }
  rewrite (call_log_utterance_puts "Persoon" (str_of_opt None) wb qi _ Hqb Hqsb).
  eexists. split; [reflexivity|]. split; [|split].
  - cbn [logging set_logging queues set_queues].
    rewrite list_lookup_insert_eq.
    + rewrite <- app_assoc. reflexivity.
    + unfold wb, wa. simpl. rewrite length_insert. now apply lookup_lt_Some in Hqs.
  - simpl. rewrite !intent_requests_app. simpl. rewrite !app_nil_r, <- !app_assoc.
    reflexivity.
  - simpl. rewrite !gpt_requests_app. simpl. rewrite !app_nil_r. reflexivity.
Qed.

Lemma unheard_answer_is_recorded_as_None_witness :
  exists w1,
    MemoLLM.conversation 2 sample_memo 100 EmptyString EmptyString unheard_world
    = MemoLLM.conversation 1 sample_memo 100
        ((EmptyString +:+ ("Memo: " +:+ "Hoe gaat het?" +:+ nl)) +:+ "Persoon: None")
        "Hoe gaat het?" w1
    /\ queues (logging w1) !! 0
       = Some [Some "[2025-03-09 14:05:59] ### START NEW LOG ###";
               Some "[2025-03-09 14:05:59] Memo: Hoe gaat het?";
               Some "[2025-03-09 14:06:07] Persoon: None"].
Proof.
  destruct (unheard_answer_is_recorded_as_None 1 sample_memo 100 EmptyString EmptyString
              "Hoe gaat het?" (reply_with None EmptyString) (reply_with None EmptyString)
              0 [Some (MemoLLM.start_marker sample_time)] unheard_world)
    as (w1 & E & Hlog & _); try reflexivity.
  exists w1. split; [exact E|]. refine (eq_trans Hlog _). vm_compute. reflexivity.
Defined.

(** ** A Nao never speaks *)

Lemma speech_app (tr1 tr2 : list event) : speech (tr1 ++ tr2) = speech tr1 ++ speech tr2.
Proof. unfold speech. apply filter_app. Qed.

Lemma silent_ret {A} (a : A) : silent (ret a).
Proof. intros w. exists []. now rewrite app_nil_r. Qed.

Lemma silent_bind {A B} (c : M A) (k : A -> M B) :
  silent c -> (forall a, silent (k a)) -> silent (bind c k).
Proof.
  intros Hc Hk w. unfold bind. destruct (Hc w) as (m1 & E1 & S1).
  destruct (c w) as [[a|e|] w1]; cbn [snd] in *; try (exists m1; now split).
  destruct (Hk a w1) as (m2 & E2 & S2). exists (m1 ++ m2). split.
  - now rewrite E2, E1, app_assoc.
  - now rewrite speech_app, S1, S2.
Qed.

Lemma silent_send (e : event) : is_speech e = false -> silent (send e).
Proof.
  intros He w. exists [e]. split; [reflexivity|].
  destruct e; try discriminate He; reflexivity.
Qed.

Lemma silent_dialogflow (request_id : Z) (contexts : list (string * Z)) :
  silent (dialogflow_request request_id contexts).
Proof.
  intros w. exists [IntentRequest request_id contexts]. unfold dialogflow_request.
  destruct (recognizer w (asked w)); now split.
Qed.

Lemma silent_gpt (prompt : string) : silent (gpt_request prompt).
Proof.
  intros w. exists [GptRequest prompt]. unfold gpt_request.
  destruct (completer w (completed w)); now split.
Qed.

Lemma silent_while {A} (body : M (option A)) (max_attempts : Z) :
  silent body ->
  forall (fuel : nat) (attempts : Z), silent (while_attempts fuel body attempts max_attempts).
Proof.
  intros Hb. induction fuel as [|fuel IH]; intros attempts; cbn [while_attempts];
    destruct (attempts <? max_attempts)%Z; try apply silent_ret.
  - intros w. exists []. now rewrite app_nil_r.
  - apply silent_bind; [exact Hb|]. intros [v|]; [apply silent_ret | apply IH].
Qed.

(** On a Nao [say] sends nothing to the robot: the second test of the
    [elif] looks at the module [device] and not at [self.device], so the
    call prints the error line. *)
Lemma say_nao (me : ConversationDemo.self) (text : string) (animated : bool) :
  ConversationDemo.device me = ConversationDemo.Nao ->
  ConversationDemo.say me text animated
  = print ("Error: device " +:+ ConversationDemo.device_repr me +:+ " not recognized").
Proof. intros H. unfold ConversationDemo.say. now rewrite H. Qed.

Section Nao.

Variable me : ConversationDemo.self.
Hypothesis is_nao : ConversationDemo.device me = ConversationDemo.Nao.

Lemma silent_say (text : string) (animated : bool) :
  silent (ConversationDemo.say me text animated).
Proof. rewrite (say_nao me text animated is_nao). now apply silent_send. Qed.

Lemma silent_one_attempt (p : primitive) (question : string) :
  match p with
  | AskYesno me' | AskEntity me' _ _ _ | AskOpen me' => me' = me
  | Listen _ _ => False
  end ->
  silent (one_attempt p question).
Proof.
  destruct p as [me'|me' context target_intent target_entity|me'|me' speed];
    intros Hp; [subst me'..|destruct Hp]; cbn [one_attempt];
    apply silent_bind; try apply silent_say; intros _;
    (apply silent_bind; [apply silent_dialogflow|]); intros r;
    (apply silent_bind; [now apply silent_send|]); intros _.
  - apply silent_ret.
  - apply silent_ret.
  - destruct (truthy (query_text r)); apply silent_ret.
Qed.

Lemma silent_ask_yesno (question : string) (n : Z) :
  silent (ConversationDemo.ask_yesno me question n).
Proof. apply silent_while. now apply (silent_one_attempt (AskYesno me)). Qed.

Lemma silent_ask_entity (question context target_intent target_entity : string) (n : Z) :
  silent (ConversationDemo.ask_entity me question context target_intent target_entity n).
Proof.
  apply silent_while.
  now apply (silent_one_attempt (AskEntity me context target_intent target_entity)).
Qed.

Lemma silent_ask_open (question : string) (n : Z) :
  silent (ConversationDemo.ask_open me question n).
Proof. apply silent_while. now apply (silent_one_attempt (AskOpen me)). Qed.

Lemma silent_run_followup (lievelingsdier waarom : string) :
  silent (ConversationDemo.run_followup me lievelingsdier waarom).
Proof.
  unfold ConversationDemo.run_followup, ConversationDemo.llm_request.
  apply silent_bind; [apply silent_gpt|]. intros vraag.
  destruct (truthy vraag); [|apply silent_say].
  apply silent_bind; [apply silent_ask_open|]. intros antwoord.
  destruct (truthy_opt antwoord); [|apply silent_ret].
  apply silent_bind; [apply silent_gpt|]. intros reaction. apply silent_say.
Qed.

Lemma silent_run_animals : silent (ConversationDemo.run_animals me).
Proof.
  unfold ConversationDemo.run_animals.
  apply silent_bind; [apply silent_ask_entity|]. intros dier.
  destruct (truthy_opt dier); [|apply silent_say].
  apply silent_bind; [apply silent_say|]. intros _.
  apply silent_bind; [apply silent_ask_open|]. intros waarom.
  destruct (truthy_opt waarom); [apply silent_run_followup | apply silent_say].
Qed.

Lemma silent_run : silent (ConversationDemo.run me).
Proof.
  unfold ConversationDemo.run.
  apply silent_bind; [apply silent_say|]. intros _.
  apply silent_bind; [apply silent_ask_yesno|]. intros wil.
  apply silent_bind; [|intros _; apply silent_say].
  destruct (truthy_opt wil && _); [apply silent_run_animals | apply silent_say].
Qed.

End Nao.

(** On a Nao the whole of [ConversationDemo.run] is silent, whatever the
    services answer and however it ends: it sends no text-to-speech
    request (and calls no [espeak]), so nothing of the conversation is
    spoken; the first thing it does is to print the error line where the
    greeting should be. *)
Theorem run_on_nao_is_silent (me : ConversationDemo.self) (w : world) :
  ConversationDemo.device me = ConversationDemo.Nao ->
  speech (trace (ConversationDemo.run me w).2) = speech (trace w)
  /\ exists rest,
       trace (ConversationDemo.run me w).2
       = trace w
         ++ Printed ("Error: device " +:+ ConversationDemo.device_repr me
                     +:+ " not recognized") :: rest.
Proof.
  intros Hnao. split.
  - destruct (silent_run me Hnao w) as (more & E & S).
    now rewrite E, speech_app, S, app_nil_r.
  - unfold ConversationDemo.run. unfold bind at 1.
    rewrite (say_nao me _ _ Hnao). unfold print at 1, send at 1.
    set (err := Printed _).
    assert (Hk : silent
              (wil_kletsen <- ConversationDemo.ask_yesno me "Hou je van dieren?" 2 ;;
               (if truthy_opt wil_kletsen
                   && match wil_kletsen with Some s => String.eqb s "yes" | None => false end
                then ConversationDemo.run_animals me
                else ConversationDemo.say me
                       "Helemaal prima, dan kletsen we over wat anders" true) ;;
               ConversationDemo.say me ConversationDemo.farewell true)).
    { apply silent_bind; [now apply silent_ask_yesno|]. intros wil.
      apply silent_bind; [|intros _; now apply silent_say].
      destruct (truthy_opt wil && _);
        [now apply silent_run_animals | now apply silent_say]. }
    destruct (Hk (emit err w)) as (more & E & _).
    exists more. rewrite E. simpl. now rewrite <- app_assoc.
Qed.

Lemma run_on_nao_is_silent_witness :
  speech (trace (ConversationDemo.run nao_demo
                   (quiet_world (reply_with (Some "yesno_yes") "ja"))).2) = []
  /\ length (intent_requests
               (trace (ConversationDemo.run nao_demo
                         (quiet_world (reply_with (Some "yesno_yes") "ja"))).2)) = 3.
Proof.
  destruct (run_on_nao_is_silent nao_demo (quiet_world (reply_with (Some "yesno_yes") "ja"))
              eq_refl) as [H _].
  split; [exact H | vm_compute; reflexivity].
Defined.
